(** * Dynamic systems with unlimited memory

    A shallow embedding of the code cells of
    [posts/dynamic_systems_unlimited_memory/dynamic_systems_unlimited_memory.ipynb]
    and the properties of its recurrences.

    Numbers.  The notebook computes with NumPy floats (binary64).  The
    cells are embedded twice.  In the main embedding every number is an
    exact rational ([Q], compared with [==]); it carries the statements
    that do not depend on rounding: lengths, errors, key sets, order,
    signs, which input a state is built from.  Module [Binary64] embeds
    the cells whose results depend on rounding with Rocq's primitive
    binary64 floats, whose [+], [-], [*], [/] and comparisons are the
    IEEE 754 operations NumPy and Python use.

    Errors.  Python raises [IndexError] on [x[0]] of an empty sequence and
    [KeyError] on a dictionary read of an absent key; both are values of
    the error monad [result].

    Dictionaries.  A Python [dict] keeps its keys in insertion order, holds
    each key once, and looks a key up with [==]; it is an association list
    whose keys are compared with [Qeq_bool].  The notebook stores deep
    copies of the histogram in its history, so no state is shared between
    two entries and the update is modelled as a function from the old
    dictionary to the new one. *)

From Stdlib Require Import QArith Qround Qminmax ZArith List Lia Bool Arith.
From Stdlib Require Import Setoid Morphisms Lqa Floats.
Import ListNotations.

Set Warnings "-abstract-large-number,-inexact-float".

Local Open Scope Q_scope.

(* ================================================================== *)
(** * Part I: definitions *)
(* ================================================================== *)

(** ** Python prelude: exceptions, sequences, dictionaries *)

Module Py.

Inductive exn : Set := IndexError | KeyError.

Inductive result (A : Type) : Type :=
| Ok (a : A)
| Raise (e : exn).

Arguments Ok {A} a.
Arguments Raise {A} e.

Definition bind {A B : Type} (m : result A) (k : A -> result B) : result B :=
  match m with
  | Ok a => k a
  | Raise e => Raise e
  end.

(** [for item in items: s = body(s, item)] *)
Fixpoint for_each {A S : Type} (body : S -> A -> result S)
         (items : list A) (s : S) : result S :=
  match items with
  | [] => Ok s
  | a :: rest => bind (body s a) (for_each body rest)
  end.

(** [l[i]] for [i >= 0] *)
Definition getitem {A : Type} (l : list A) (i : nat) : result A :=
  match nth_error l i with
  | Some a => Ok a
  | None => Raise IndexError
  end.

(** [l[-1]] *)
Definition getlast (l : list Q) : result Q :=
  match l with
  | [] => Raise IndexError
  | _ :: _ => Ok (last l 0)
  end.

(** [range(lo, hi)] *)
Definition range (lo hi : nat) : list nat := seq lo (hi - lo).

(** A [dict] with numeric keys and values, in insertion order. *)
Definition dict : Type := list (Q * Q).

Definition keys (d : dict) : list Q := map fst d.
Definition values (d : dict) : list Q := map snd d.

(** [d[k]] read *)
Fixpoint dict_get (d : dict) (k : Q) : result Q :=
  match d with
  | [] => Raise KeyError
  | (k', v) :: d' => if Qeq_bool k' k then Ok v else dict_get d' k
  end.

(** [d[k] = v]: an existing key keeps its place (and its key object),
    a new key is appended. *)
Fixpoint dict_set (d : dict) (k v : Q) : dict :=
  match d with
  | [] => [(k, v)]
  | (k', v') :: d' =>
      if Qeq_bool k' k then (k', v) :: d' else (k', v') :: dict_set d' k v
  end.

(** [k in d] *)
Definition dict_mem (d : dict) (k : Q) : bool :=
  existsb (fun k' => Qeq_bool k' k) (keys d).

(** The invariant of every Python [dict]: no key occurs twice. *)
Fixpoint wf_dict (d : dict) : bool :=
  match d with
  | [] => true
  | (k, _) :: d' => negb (dict_mem d' k) && wf_dict d'
  end.

End Py.

Import Py.

Declare Scope py_scope.
Notation "x <- m ;; k" := (bind m (fun x => k))
  (at level 61, m at next level, right associativity) : py_scope.
Local Open Scope py_scope.

Definition Qlt_bool (a b : Q) : bool := negb (Qle_bool b a).

Definition Q_of_nat (n : nat) : Q := inject_Z (Z.of_nat n).

(** Sum of a list of numbers. *)
Definition Qsum (l : list Q) : Q := fold_right Qplus 0 l.

(** ** Example 2: exponential average (code cell 21) *)

(** <<
def exponential_average(x,alpha):
    h = [x[0]]
    for p in range(len(x) - 1):
        x_p = x[p]
        h_p = alpha*h[-1] + (1 - alpha)*x_p
        h.append(h_p)
    return np.array(h)
>> *)
Definition exponential_average (x : list Q) (alpha : Q) : result (list Q) :=
  x_0 <- getitem x 0 ;;
  for_each
    (fun h p =>
       x_p <- getitem x p ;;
       h_last <- getlast h ;;
       let h_p := alpha * h_last + (1 - alpha) * x_p in
       Ok (h ++ [h_p]))
    (range 0 (length x - 1))
    [x_0].

(** ** Example 4: running maximum (code cell 30) *)

(** <<
h = [x[0]]
for p in range(1,len(x)):
    ave = h[-1]
    x_p = x[p]
    new_ave = np.maximum(ave,x_p)
    h.append(new_ave)
>> *)
Definition running_maximum (x : list Q) : result (list Q) :=
  x_0 <- getitem x 0 ;;
  for_each
    (fun h p =>
       ave <- getlast h ;;
       x_p <- getitem x p ;;
       let new_ave := Qmax ave x_p in
       Ok (h ++ [new_ave]))
    (range 1 (length x))
    [x_0].

(** ** Example 5: running count of zero crossings (code cell 35) *)

(** <<
def zero_cross_counter(x_t,x_t_minus_1):
    cross = 0
    if (x_t_minus_1 >=0 and x_t <= 0) or (x_t_minus_1 <=0 and x_t >= 0):
        cross = 1
    return cross
>> *)
Definition zero_cross_counter (x_t x_t_minus_1 : Q) : Z :=
  if (Qle_bool 0 x_t_minus_1 && Qle_bool x_t 0)
     || (Qle_bool x_t_minus_1 0 && Qle_bool 0 x_t)
  then 1%Z else 0%Z.

(** <<
h = [x[0]]
for t in range(1,len(x)):
    h_t = h[-1]
    x_t_minus_1 = x[t-1]
    x_t = x[t]
    cross = zero_cross_counter(x_t,x_t_minus_1)
    h.append(h_t + cross)
>> *)
Definition zero_cross_history (x : list Q) : result (list Q) :=
  x_0 <- getitem x 0 ;;
  for_each
    (fun h t =>
       h_t <- getlast h ;;
       x_t_minus_1 <- getitem x (t - 1) ;;
       x_t <- getitem x t ;;
       let cross := zero_cross_counter x_t x_t_minus_1 in
       Ok (h ++ [h_t + inject_Z cross]))
    (range 1 (length x))
    [x_0].

(** ** Example 6: running normalized histogram (code cell 39) *)

(** [np.rint]: the nearest integer, a tie going to the even neighbour. *)
Definition rint (q : Q) : Z :=
  let f := Qfloor q in
  match Qcompare (q - inject_Z f) (1 # 2) with
  | Lt => f
  | Gt => (f + 1)%Z
  | Eq => if Z.even f then f else (f + 1)%Z
  end.

(** [np.round(x, 1)]: scale by ten, round to the nearest integer, scale
    back. *)
Definition np_round1 (x : Q) : Q := inject_Z (rint (x * 10)) / 10.

(** [np.linspace(start, stop, num)] for [num >= 2]. *)
Definition np_linspace (start stop : Q) (num : nat) : list Q :=
  let step := (stop - start) / Q_of_nat (num - 1) in
  map (fun i => start + Q_of_nat i * step) (seq 0 num).

(** [np.unique]: the distinct values in increasing order. *)
Fixpoint insert_unique (a : Q) (l : list Q) : list Q :=
  match l with
  | [] => [a]
  | b :: l' =>
      match Qcompare a b with
      | Lt => a :: l
      | Eq => l
      | Gt => b :: insert_unique a l'
      end
  end.

Definition np_unique (l : list Q) : list Q :=
  fold_left (fun acc a => insert_unique a acc) l [].

(** <<
def update_histogram(h_t,x_t,alpha):
    for key in h_t.keys():
        h_t[key]=h_t[key]*(1 - alpha)
    x_t = np.round(x_t,1)
    if x_t < 0:
        x_t = 0
    if x_t > 10:
        x_t = 10
    h_t[x_t] += alpha
    return h_t
>> *)
Definition update_histogram (h_t : dict) (x_t alpha : Q) : result dict :=
  h_t <- for_each
           (fun h key =>
              v <- dict_get h key ;;
              Ok (dict_set h key (v * (1 - alpha))))
           (keys h_t) h_t ;;
  let x_t := np_round1 x_t in
  let x_t := if Qlt_bool x_t 0 then 0 else x_t in
  let x_t := if Qlt_bool 10 x_t then 10 else x_t in
  v <- dict_get h_t x_t ;;
  Ok (dict_set h_t x_t (v + alpha)).

(** <<
bins = np.unique(np.array([np.round(a,1) for a in np.linspace(0,10,10000)]))
h_t = {a:0 for a in bins}
>> *)
Definition bins : list Q :=
  np_unique (map np_round1 (np_linspace 0 10 10000)).

Definition h_t_init : dict := map (fun a => (a, 0)) bins.

(** The driver loop, for any starting histogram and any [alpha]:
<<
h_all = [copy.deepcopy(h_t)]
for x_t in x:
    h_t = update_histogram(h_t,x_t,alpha)
    h_all.append(copy.deepcopy(h_t))
>>
    The loop state is the pair of the live histogram and the history. *)
Definition histogram_loop (h_t : dict) (alpha : Q) (x : list Q)
  : result (list dict) :=
  st <- for_each
          (fun (st : dict * list dict) x_t =>
             let (h_t, h_all) := st in
             h_t <- update_histogram h_t x_t alpha ;;
             Ok (h_t, h_all ++ [h_t]))
          x (h_t, [h_t]) ;;
  Ok (snd st).

(** The notebook's run: the all-zero histogram and [alpha = 0.1]. *)
Definition histogram_history (x : list Q) : result (list dict) :=
  histogram_loop h_t_init (1 # 10) x.

(** Total weight of a histogram. *)
Definition total_weight (h : dict) : Q := Qsum (values h).

(** ** Deep systems: running variance (text cells 46-48) *)

(** Modelled from the spec: the running-variance evaluator.  The notebook
    gives the running mean and the running variance as formulas only and
    has no code cell for them, so the two coupled recursions are taken
    from the variant table: [h_ave = ((p-1)/p)*h_ave_prev + (1/p)*x] and
    [h_var = ((p-1)/p)*h_var_prev + (1/p)*(x - h_ave)*(x - h_ave_prev)],
    with the step counter [p] starting at 1. *)
Definition running_mean_step (p : nat) (h_ave_prev x_p : Q) : Q :=
  ((Q_of_nat p - 1) / Q_of_nat p) * h_ave_prev + (1 / Q_of_nat p) * x_p.

(** Modelled from the spec: the variance recursion of the variant table. *)
Definition running_var_step (p : nat) (h_var_prev h_ave h_ave_prev x_p : Q) : Q :=
  ((Q_of_nat p - 1) / Q_of_nat p) * h_var_prev
  + (1 / Q_of_nat p) * (x_p - h_ave) * (x_p - h_ave_prev).

(** Modelled from the spec: the evaluator applied to the two coupled
    recursions.  It returns the pairs [(h_ave_p, h_var_p)] from step [p]
    on, given the state of step [p - 1]. *)
Fixpoint running_variance_from (p : nat) (h_ave_prev h_var_prev : Q)
         (x : list Q) : list (Q * Q) :=
  match x with
  | [] => []
  | x_p :: x' =>
      let h_ave := running_mean_step p h_ave_prev x_p in
      let h_var := running_var_step p h_var_prev h_ave h_ave_prev x_p in
      (h_ave, h_var) :: running_variance_from (Datatypes.S p) h_ave h_var x'
  end.

(** Modelled from the spec: a run from step 1.  The state before the
    first step is multiplied by [(1-1)/1 = 0] and by [x_1 - h_ave_1 = 0],
    so any seed gives the same history. *)
Definition running_variance (h_ave_0 h_var_0 : Q) (x : list Q) : list (Q * Q) :=
  running_variance_from 1 h_ave_0 h_var_0 x.

(** ** Vocabulary of the statements *)

(** *** Loops that append to a history *)

(** The three scalar cells share one loop shape: the history starts as
    [[x_0]] and every iteration appends a value computed from the last
    entry and the loop index.  [appends body step lo n] says that [body]
    is such an iteration on the indices [lo .. lo+n-1]. *)
Definition appends (body : list Q -> nat -> result (list Q))
           (step : Q -> nat -> Q) (lo n : nat) : Prop :=
  forall h k p, length h = Datatypes.S k -> (lo <= p < lo + n)%nat ->
                body h p = Ok (h ++ [step (nth k h 0) p]).

Definition exp_step (alpha : Q) (x : list Q) (h_last : Q) (p : nat) : Q :=
  alpha * h_last + (1 - alpha) * nth p x 0.

(** *** Zero crossings *)

(** The pair [(a, b)] straddles zero, with non-strict inequalities. *)
Definition straddles (a b : Q) : Prop :=
  (0 <= a /\ b <= 0) \/ (a <= 0 /\ 0 <= b).

(** *** Histogram *)

(** The body of the first loop of [update_histogram]. *)
Definition decay_body (alpha : Q) (h : dict) (key : Q) : result dict :=
  v <- dict_get h key ;; Ok (dict_set h key (v * (1 - alpha))).

(** Every weight multiplied by [1 - alpha]. *)
Definition decayed (alpha : Q) (h : dict) : dict :=
  map (fun kv => (fst kv, snd kv * (1 - alpha))) h.

(** The bin an input falls into: [np.round(x_t,1)] followed by the two
    clamping tests of [update_histogram]. *)
Definition bin_of (x_t : Q) : Q :=
  let x_t := np_round1 x_t in
  let x_t := if Qlt_bool x_t 0 then 0 else x_t in
  if Qlt_bool 10 x_t then 10 else x_t.

(** The one-decimal grid [0.0, 0.1, ..., 10.0]. *)
Definition grid : list Q :=
  map (fun k => inject_Z (Z.of_nat k) / 10) (seq 0 101).

(** The body of the driver loop. *)
Definition hist_body (alpha : Q) (st : dict * list dict) (x_t : Q)
  : result (dict * list dict) :=
  let (h_t, h_all) := st in
  h_t <- update_histogram h_t x_t alpha ;;
  Ok (h_t, h_all ++ [h_t]).

(** The states after the initial one, by recursion on the input. *)
Fixpoint later_states (h_t : dict) (alpha : Q) (x : list Q)
  : result (list dict) :=
  match x with
  | [] => Ok []
  | x_t :: x' =>
      h' <- update_histogram h_t x_t alpha ;;
      rest <- later_states h' alpha x' ;;
      Ok (h' :: rest)
  end.

(** *** Mean and variance of a prefix *)

(** The textbook formulas on a prefix. *)
Definition squared_deviations (l : list Q) (m : Q) : Q :=
  Qsum (map (fun x_j => (x_j - m) ^ 2) l).

Definition naive_mean (l : list Q) : Q :=
  (1 / Q_of_nat (length l)) * Qsum l.

Definition naive_variance (l : list Q) (m : Q) : Q :=
  (1 / Q_of_nat (length l)) * squared_deviations l m.

Definition sum_of_squares (l : list Q) : Q := Qsum (map (fun x_j => x_j * x_j) l).

(** The loop invariant: after the prefix [pre], the state [(m, v)] holds
    the mean and the population variance of [pre], both scaled by the
    length. *)
Definition var_inv (pre : list Q) (m v : Q) : Prop :=
  Q_of_nat (length pre) * m == Qsum pre
  /\ Q_of_nat (length pre) * v == squared_deviations pre m.

(** *** Weights after an update *)

(** What one update does to the weight [v] stored under key [k]. *)
Definition updated_weight (x_t alpha k v : Q) : Q :=
  if Qeq_bool (bin_of x_t) k then v * (1 - alpha) + alpha
  else v * (1 - alpha).

(** ** The cells in binary64 *)

Module Binary64.

(** [l[-1]] *)
Definition getlast (l : list float) : result float :=
  match l with
  | [] => Raise IndexError
  | _ :: _ => Ok (last l 0%float)
  end.

(** The float a small non-negative Python [int] is converted to when it
    meets a float in an arithmetic operation. *)
Definition float_of_int (n : Z) : float := PrimFloat.of_uint63 (Uint63.of_Z n).

(** <<
def zero_cross_counter(x_t,x_t_minus_1):
    cross = 0
    if (x_t_minus_1 >=0 and x_t <= 0) or (x_t_minus_1 <=0 and x_t >= 0):
        cross = 1
    return cross
>> *)
Definition zero_cross_counter (x_t x_t_minus_1 : float) : Z :=
  if (PrimFloat.leb 0 x_t_minus_1 && PrimFloat.leb x_t 0)
     || (PrimFloat.leb x_t_minus_1 0 && PrimFloat.leb 0 x_t)
  then 1%Z else 0%Z.

(** <<
h = [x[0]]
for t in range(1,len(x)):
    h_t = h[-1]
    x_t_minus_1 = x[t-1]
    x_t = x[t]
    cross = zero_cross_counter(x_t,x_t_minus_1)
    h.append(h_t + cross)
>> *)
Definition zero_cross_history (x : list float) : result (list float) :=
  x_0 <- getitem x 0 ;;
  for_each
    (fun h t =>
       h_t <- getlast h ;;
       x_t_minus_1 <- getitem x (t - 1) ;;
       x_t <- getitem x t ;;
       let cross := zero_cross_counter x_t x_t_minus_1 in
       Ok (h ++ [PrimFloat.add h_t (float_of_int cross)]))
    (range 1 (length x))
    [x_0].

(** The indicators of the pairs [(x_{t-1}, x_t)], [t = 2 .. p], as the
    floats the loop adds; steps are counted from 1, so the list index of
    [x_t] is [t - 1]. *)
Definition increments (x : list float) (p : nat) : list float :=
  map (fun t => float_of_int
                  (zero_cross_counter (nth (t - 1) x 0%float)
                                      (nth (t - 2) x 0%float)))
      (range 2 (Datatypes.S p)).

(** [2^52]: from here on every binary64 value is an integer. *)
Definition two52 : float := 4503599627370496%float.

(** [np.rint] in binary64.  Adding and then subtracting [2^52] makes the
    round-to-nearest-even of the addition do the rounding to an integer;
    the result is the nearest integer, ties to even, up to the sign of a
    zero result, which no comparison and no dictionary lookup sees. *)
Definition rint (x : float) : float :=
  if PrimFloat.ltb (PrimFloat.abs x) two52
  then if PrimFloat.ltb x 0
       then PrimFloat.add (PrimFloat.sub x two52) two52
       else PrimFloat.sub (PrimFloat.add x two52) two52
  else x.

(** [np.round(x, 1)]: NumPy multiplies by ten, rounds to an integer and
    divides by ten, each in binary64. *)
Definition np_round1 (x : float) : float :=
  PrimFloat.div (rint (PrimFloat.mul x 10)) 10.

(** A [dict] with float keys and values; keys are compared with [==]. *)
Definition dict : Type := list (float * float).

Definition keys (d : dict) : list float := map fst d.
Definition values (d : dict) : list float := map snd d.

Fixpoint dict_get (d : dict) (k : float) : result float :=
  match d with
  | [] => Raise KeyError
  | (k', v) :: d' => if PrimFloat.eqb k' k then Ok v else dict_get d' k
  end.

Fixpoint dict_set (d : dict) (k v : float) : dict :=
  match d with
  | [] => [(k, v)]
  | (k', v') :: d' =>
      if PrimFloat.eqb k' k then (k', v) :: d' else (k', v') :: dict_set d' k v
  end.

(** <<
def update_histogram(h_t,x_t,alpha):
    for key in h_t.keys():
        h_t[key]=h_t[key]*(1 - alpha)
    x_t = np.round(x_t,1)
    if x_t < 0:
        x_t = 0
    if x_t > 10:
        x_t = 10
    h_t[x_t] += alpha
    return h_t
>> *)
Definition update_histogram (h_t : dict) (x_t alpha : float) : result dict :=
  h_t <- for_each
           (fun h key =>
              v <- dict_get h key ;;
              Ok (dict_set h key (PrimFloat.mul v (PrimFloat.sub 1 alpha))))
           (keys h_t) h_t ;;
  let x_t := np_round1 x_t in
  let x_t := if PrimFloat.ltb x_t 0 then 0%float else x_t in
  let x_t := if PrimFloat.ltb 10 x_t then 10%float else x_t in
  v <- dict_get h_t x_t ;;
  Ok (dict_set h_t x_t (PrimFloat.add v alpha)).

(** [sum(h_t.values())]: Python adds from the left, starting at 0. *)
Definition total_weight (h : dict) : float :=
  fold_left PrimFloat.add (values h) 0%float.

(** The rational number a finite float stands for (0 for NaN and the
    infinities, which the statements below never meet). *)
Definition Q_of_float (f : float) : Q :=
  match Prim2SF f with
  | S754_finite s m e =>
      (if s then - 1 else 1) * inject_Z (Z.pos m) * Qpower 2 e
  | _ => 0
  end.



(** The key an update credits: [np.round(x_t,1)] followed by the two
    clamping tests of [update_histogram]. *)
Definition bin_of (x_t : float) : float :=
  let x_t := np_round1 x_t in
  let x_t := if PrimFloat.ltb x_t 0 then 0%float else x_t in
  if PrimFloat.ltb 10 x_t then 10%float else x_t.

(** Every weight multiplied by [1 - alpha], in binary64. *)
Definition decayed (alpha : float) (h : dict) : dict :=
  map (fun kv => (fst kv, PrimFloat.mul (snd kv) (PrimFloat.sub 1 alpha))) h.

(** The invariant of every Python [dict] with numeric keys: no key is a
    NaN and no two keys are equal. *)
Fixpoint wf_dict (d : dict) : bool :=
  match d with
  | [] => true
  | (k, _) :: d' =>
      PrimFloat.eqb k k
      && negb (existsb (fun k' => PrimFloat.eqb k' k || PrimFloat.eqb k k')
                       (keys d'))
      && wf_dict d'
  end.




(** [2^53]: the first float whose successor is 2 away. *)
Definition two53 : float := 9007199254740992%float.

End Binary64.

(* ================================================================== *)
(** * Part II: properties *)
(* ================================================================== *)

(** ** The error monad and the loops *)

Section Loops.

Context {A S : Type}.
Variable body : S -> A -> result S.

Lemma for_each_app (l1 l2 : list A) (s : S) :
  for_each body (l1 ++ l2) s = bind (for_each body l1 s) (for_each body l2).
Proof.
  revert s; induction l1 as [|a l1 IH]; intros s; simpl.
  - reflexivity.
  - destruct (body s a) as [s'|e]; simpl; [apply IH | reflexivity].
Qed.

Lemma for_each_snoc (l : list A) (a : A) (s s' : S) :
  for_each body l s = Ok s' ->
  for_each body (l ++ [a]) s = body s' a.
Proof.
  intros H. rewrite for_each_app, H. simpl.
  destruct (body s' a); reflexivity.
Qed.

End Loops.

Lemma getitem_nth {A : Type} (l : list A) (i : nat) (d : A) :
  (i < length l)%nat -> getitem l i = Ok (nth i l d).
Proof.
  intros Hi. unfold getitem.
  rewrite (nth_error_nth' l d Hi). reflexivity.
Qed.

Lemma last_is_nth (l : list Q) (d : Q) :
  last l d = nth (length l - 1) l d.
Proof.
  induction l as [|a [|b l] IH]; try reflexivity.
  change (last (a :: b :: l) d) with (last (b :: l) d).
  rewrite IH. simpl. rewrite Nat.sub_0_r. reflexivity.
Qed.

Lemma getlast_nth (l : list Q) (n : nat) :
  length l = Datatypes.S n -> getlast l = Ok (nth n l 0).
Proof.
  intros Hl. destruct l as [|a l]; [discriminate|].
  unfold getlast. rewrite last_is_nth, Hl.
  simpl. rewrite Nat.sub_0_r. reflexivity.
Qed.

Lemma append_loop body step lo n x_0 :
  appends body step lo n ->
  exists h, for_each body (seq lo n) [x_0] = Ok h
            /\ length h = Datatypes.S n
            /\ nth 0 h 0 = x_0
            /\ forall i, (i < n)%nat ->
                         nth (Datatypes.S i) h 0 = step (nth i h 0) (lo + i)%nat.
Proof.
  induction n as [|n IH]; intros Hb.
  - exists [x_0]. simpl. repeat split; intros; lia.
  - destruct IH as (h & Hrun & Hlen & H0 & Hrec).
    { intros h k p Hh Hp. apply Hb; [assumption | lia]. }
    exists (h ++ [step (nth n h 0) (lo + n)%nat]).
    rewrite seq_S, (for_each_snoc _ _ _ _ _ Hrun).
    split; [apply Hb; [assumption | lia]|].
    split; [rewrite length_app; simpl; lia|].
    split; [rewrite app_nth1 by lia; assumption|].
    intros i Hi. destruct (Nat.eq_dec i n) as [->|Hne].
    + rewrite app_nth2 by lia. rewrite Hlen, Nat.sub_diag. simpl.
      rewrite app_nth1 by lia. reflexivity.
    + rewrite !app_nth1 by lia. apply Hrec. lia.
Qed.

(** ** Exponential average *)

(** What the code computes: the state appended in iteration [p] combines
    the previous state with [x[p]], and iteration [p] fills [h[p+1]]. *)
Lemma exponential_average_run (x_0 : Q) (xs : list Q) (alpha : Q) :
  exists h, exponential_average (x_0 :: xs) alpha = Ok h
            /\ length h = length (x_0 :: xs)
            /\ nth 0 h 0 = x_0
            /\ forall p, (p < length xs)%nat ->
                 nth (Datatypes.S p) h 0
                 = alpha * nth p h 0 + (1 - alpha) * nth p (x_0 :: xs) 0.
Proof.
  unfold exponential_average, range.
  rewrite (getitem_nth _ 0%nat 0) by (simpl; lia).
  cbn [bind nth length]. rewrite !Nat.sub_0_r.
  replace (Datatypes.S (length xs) - 1)%nat with (length xs) by lia.
  assert (Hb : appends
                 (fun h p =>
                    x_p <- getitem (x_0 :: xs) p ;;
                    h_last <- getlast h ;;
                    Ok (h ++ [alpha * h_last + (1 - alpha) * x_p]))
                 (exp_step alpha (x_0 :: xs)) 0 (length xs)).
  { intros h k p Hh Hp.
    rewrite (getitem_nth _ p 0) by (simpl; lia).
    rewrite (getlast_nth _ _ Hh). reflexivity. }
  destruct (append_loop _ _ _ _ x_0 Hb) as (h & Hrun & Hlen & H0 & Hrec).
  exists h. split; [exact Hrun|]. split; [simpl; lia|]. split; [exact H0|].
  intros p Hp. rewrite (Hrec p Hp). reflexivity.
Qed.

(** C1.  The combination the text gives is
    [h_p = alpha*h_{p-1} + (1-alpha)*x_p]; the loop of
    [exponential_average] reads [x[p]] while it fills [h[p+1]], so the
    state of a step is built from the input of the step before.  On
    [x = [1, 2, 4]] with [alpha = 1/2] the second state is
    [1/2*1 + 1/2*1 = 1], where the stated recurrence gives
    [1/2*1 + 1/2*2 = 3/2].  The first part is the recurrence the code
    does satisfy, with list indices from 0. *)
Theorem exponential_average_lags_input :
  (forall x_0 xs alpha, exists h,
      exponential_average (x_0 :: xs) alpha = Ok h
      /\ nth 0 h 0 = x_0
      /\ forall p, (p < length xs)%nat ->
                   nth (Datatypes.S p) h 0
                   = alpha * nth p h 0 + (1 - alpha) * nth p (x_0 :: xs) 0)
  /\ (exists h, exponential_average [1; 2; 4] (1 # 2) = Ok h
                /\ nth 1 h 0 == 1
                /\ ~ nth 1 h 0
                     == (1 # 2) * nth 0 h 0 + (1 - (1 # 2)) * nth 1 [1; 2; 4] 0).
Proof.
  split.
  - intros x_0 xs alpha.
    destruct (exponential_average_run x_0 xs alpha)
      as (h & Hrun & _ & H0 & Hrec).
    exists h. split; [exact Hrun|]. split; [exact H0 | exact Hrec].
  - eexists. split; [vm_compute; reflexivity|].
    split; [reflexivity | discriminate].
Qed.

(** C6.  With [alpha = 1] every state equals the first one.  With
    [alpha = 0] the code does not pass the input through: state [p+1]
    equals input [p], one step late, and on [x = [3, 5]] the second state
    is [3], not [5]. *)
Theorem exponential_average_boundary_alphas :
  (forall x_0 xs, exists h,
      exponential_average (x_0 :: xs) 1 = Ok h
      /\ forall p, (p < length h)%nat -> nth p h 0 == x_0)
  /\ (forall x_0 xs, exists h,
         exponential_average (x_0 :: xs) 0 = Ok h
         /\ forall p, (p < length xs)%nat ->
                      nth (Datatypes.S p) h 0 == nth p (x_0 :: xs) 0)
  /\ (exists h, exponential_average [3; 5] 0 = Ok h
                /\ nth 1 h 0 == 3
                /\ ~ nth 1 h 0 == nth 1 [3; 5] 0).
Proof.
  split; [|split].
  - intros x_0 xs.
    destruct (exponential_average_run x_0 xs 1) as (h & Hrun & Hlen & H0 & Hrec).
    exists h. split; [exact Hrun|].
    intros p. induction p as [|p IH]; intros Hp.
    + rewrite H0. reflexivity.
    + rewrite Hrec by (simpl in Hlen; lia).
      rewrite IH by lia. ring.
  - intros x_0 xs.
    destruct (exponential_average_run x_0 xs 0) as (h & Hrun & Hlen & H0 & Hrec).
    exists h. split; [exact Hrun|].
    intros p Hp. rewrite (Hrec p Hp). ring.
  - eexists. split; [vm_compute; reflexivity|].
    split; [reflexivity | discriminate].
Qed.

(** ** Running maximum *)

Lemma running_maximum_run (x_0 : Q) (xs : list Q) :
  exists h, running_maximum (x_0 :: xs) = Ok h
            /\ length h = length (x_0 :: xs)
            /\ nth 0 h 0 = x_0
            /\ forall p, (p < length xs)%nat ->
                 nth (Datatypes.S p) h 0
                 = Qmax (nth p h 0) (nth (Datatypes.S p) (x_0 :: xs) 0).
Proof.
  unfold running_maximum, range.
  rewrite (getitem_nth _ 0%nat 0) by (simpl; lia).
  cbn [bind nth length].
  replace (Datatypes.S (length xs) - 1)%nat with (length xs) by lia.
  assert (Hb : appends
                 (fun h p =>
                    ave <- getlast h ;;
                    x_p <- getitem (x_0 :: xs) p ;;
                    Ok (h ++ [Qmax ave x_p]))
                 (fun ave p => Qmax ave (nth p (x_0 :: xs) 0))
                 1 (length xs)).
  { intros h k p Hh Hp.
    rewrite (getlast_nth _ _ Hh).
    cbn [bind]. rewrite (getitem_nth _ p 0) by (simpl; lia).
    reflexivity. }
  destruct (append_loop _ _ _ _ x_0 Hb) as (h & Hrun & Hlen & H0 & Hrec).
  exists h. split; [exact Hrun|]. split; [simpl; lia|]. split; [exact H0|].
  intros p Hp. rewrite (Hrec p Hp). reflexivity.
Qed.

(** C7.  On a non-empty input the running-maximum loop returns a history
    that never decreases: each state is at least the state before it. *)
Theorem running_maximum_monotone (x : list Q) :
  x <> [] ->
  exists h, running_maximum x = Ok h
            /\ length h = length x
            /\ forall p, (Datatypes.S p < length h)%nat ->
                         nth p h 0 <= nth (Datatypes.S p) h 0.
Proof.
  intros Hx. destruct x as [|x_0 xs]; [contradiction|].
  destruct (running_maximum_run x_0 xs) as (h & Hrun & Hlen & H0 & Hrec).
  exists h. split; [exact Hrun|]. split; [exact Hlen|].
  intros p Hp. rewrite Hrec by (simpl in Hlen; lia).
  apply Q.le_max_l.
Qed.

Lemma running_maximum_monotone_witness :
  exists h, running_maximum [0; 1; -1; 3; 1] = Ok h
            /\ length h = 5%nat
            /\ forall p, (Datatypes.S p < length h)%nat ->
                         nth p h 0 <= nth (Datatypes.S p) h 0.
Proof.
  apply (running_maximum_monotone [0; 1; -1; 3; 1]). discriminate.
Defined.

(** ** Zero crossings *)

Lemma zero_cross_counter_cases (x_t x_t_minus_1 : Q) :
  (straddles x_t_minus_1 x_t /\ zero_cross_counter x_t x_t_minus_1 = 1%Z)
  \/ (~ straddles x_t_minus_1 x_t /\ zero_cross_counter x_t x_t_minus_1 = 0%Z).
Proof.
  unfold zero_cross_counter, straddles.
  destruct (Qle_bool 0 x_t_minus_1) eqn:E1, (Qle_bool x_t 0) eqn:E2,
           (Qle_bool x_t_minus_1 0) eqn:E3, (Qle_bool 0 x_t) eqn:E4;
    cbn [andb orb];
    repeat match goal with
           | H : Qle_bool _ _ = true |- _ => apply Qle_bool_iff in H
           | H : Qle_bool _ _ = false |- _ =>
               apply not_true_iff_false in H; rewrite Qle_bool_iff in H
           end;
    first [ left; split; [tauto | reflexivity]
          | right; split; [tauto | reflexivity] ].
Qed.

(** C3.  [zero_cross_counter] returns 1 exactly on the pairs that straddle
    zero under non-strict inequalities and 0 on all others; an exact zero
    counts on either side, so two consecutive zeros are a crossing; and on
    [[0, 1, -1, 0, 1]] each of the four consecutive pairs adds 1. *)
Theorem zero_cross_counter_non_strict :
  (forall x_t x_t_minus_1,
      (zero_cross_counter x_t x_t_minus_1 = 1%Z <-> straddles x_t_minus_1 x_t)
      /\ (zero_cross_counter x_t x_t_minus_1 = 0%Z <-> ~ straddles x_t_minus_1 x_t))
  /\ (forall x_t, zero_cross_counter x_t 0 = 1%Z /\ zero_cross_counter 0 x_t = 1%Z)
  /\ zero_cross_counter 0 0 = 1%Z
  /\ map (fun t => zero_cross_counter (nth t [0; 1; -1; 0; 1] 0)
                                      (nth (t - 1) [0; 1; -1; 0; 1] 0))
         (range 1 5)
     = [1; 1; 1; 1]%Z
  /\ zero_cross_history [0; 1; -1; 0; 1] = Ok [0; 1; 2; 3; 4].
Proof.
  assert (Hiff : forall x_t x_t_minus_1,
      (zero_cross_counter x_t x_t_minus_1 = 1%Z <-> straddles x_t_minus_1 x_t)
      /\ (zero_cross_counter x_t x_t_minus_1 = 0%Z <-> ~ straddles x_t_minus_1 x_t)).
  { intros x_t x_t_minus_1.
    destruct (zero_cross_counter_cases x_t x_t_minus_1) as [[Hs Hc]|[Hs Hc]];
      rewrite Hc; repeat split; intros; try tauto; try discriminate. }
  split; [exact Hiff|].
  split.
  - intros x_t. split; apply Hiff; unfold straddles.
    + destruct (Qlt_le_dec x_t 0) as [Hlt|Hge].
      * left. split; [apply Qle_refl | apply Qlt_le_weak; exact Hlt].
      * right. split; [apply Qle_refl | exact Hge].
    + destruct (Qlt_le_dec x_t 0) as [Hlt|Hge].
      * right. split; [apply Qlt_le_weak; exact Hlt | apply Qle_refl].
      * left. split; [exact Hge | apply Qle_refl].
  - repeat split; reflexivity.
Qed.

Lemma zero_cross_counter_non_strict_witness :
  zero_cross_counter 0 0 = 1%Z /\ zero_cross_counter (1 # 2) 3 = 0%Z.
Proof.
  split.
  - apply (proj1 zero_cross_counter_non_strict 0 0).
    left. split; apply Qle_refl.
  - apply (proj1 zero_cross_counter_non_strict (1 # 2) 3).
    intros [[_ H]|[H _]]; vm_compute in H; apply H; reflexivity.
Defined.

Lemma zero_cross_history_run (x_0 : Q) (xs : list Q) :
  exists h, zero_cross_history (x_0 :: xs) = Ok h
            /\ length h = length (x_0 :: xs)
            /\ nth 0 h 0 = x_0
            /\ forall p, (p < length xs)%nat ->
                 nth (Datatypes.S p) h 0
                 = nth p h 0
                   + inject_Z (zero_cross_counter
                                 (nth (Datatypes.S p) (x_0 :: xs) 0)
                                 (nth p (x_0 :: xs) 0)).
Proof.
  unfold zero_cross_history, range.
  rewrite (getitem_nth _ 0%nat 0) by (simpl; lia).
  cbn [bind nth length].
  replace (Datatypes.S (length xs) - 1)%nat with (length xs) by lia.
  assert (Hb : appends
                 (fun h t =>
                    h_t <- getlast h ;;
                    x_t_minus_1 <- getitem (x_0 :: xs) (t - 1) ;;
                    x_t <- getitem (x_0 :: xs) t ;;
                    Ok (h ++ [h_t + inject_Z (zero_cross_counter x_t x_t_minus_1)]))
                 (fun h_t t =>
                    h_t + inject_Z (zero_cross_counter
                                      (nth t (x_0 :: xs) 0)
                                      (nth (t - 1) (x_0 :: xs) 0)))
                 1 (length xs)).
  { intros h k t Hh Ht.
    rewrite (getlast_nth _ _ Hh).
    cbn [bind]. rewrite (getitem_nth _ (t - 1)%nat 0) by (simpl; lia).
    cbn [bind]. rewrite (getitem_nth _ t 0) by (simpl; lia).
    reflexivity. }
  destruct (append_loop _ _ _ _ x_0 Hb) as (h & Hrun & Hlen & H0 & Hrec).
  exists h. split; [exact Hrun|]. split; [simpl; lia|]. split; [exact H0|].
  intros p Hp. rewrite (Hrec p Hp).
  replace (1 + p - 1)%nat with p by lia. reflexivity.
Qed.

(** ** Dictionaries *)

Lemma Qeq_bool_sym (a b : Q) : Qeq_bool a b = Qeq_bool b a.
Proof.
  destruct (Qeq_bool a b) eqn:E1, (Qeq_bool b a) eqn:E2; try reflexivity.
  - apply Qeq_bool_iff in E1. symmetry in E1. apply Qeq_bool_iff in E1. congruence.
  - apply Qeq_bool_iff in E2. symmetry in E2. apply Qeq_bool_iff in E2. congruence.
Qed.

Lemma dict_mem_get (d : dict) (k : Q) :
  dict_mem d k = true -> exists v, dict_get d k = Ok v.
Proof.
  unfold dict_mem, keys.
  induction d as [|[k' v'] d IH]; simpl; [discriminate|].
  destruct (Qeq_bool k' k); simpl; [exists v'; reflexivity | exact IH].
Qed.

Lemma dict_get_mem (d : dict) (k v : Q) :
  dict_get d k = Ok v -> dict_mem d k = true.
Proof.
  unfold dict_mem, keys.
  induction d as [|[k' v'] d IH]; simpl; [discriminate|].
  destruct (Qeq_bool k' k); simpl; [reflexivity | exact IH].
Qed.

Lemma dict_mem_In (d : dict) (k : Q) : In k (keys d) -> dict_mem d k = true.
Proof.
  intros Hin. unfold dict_mem. apply existsb_exists.
  exists k. split; [exact Hin | apply Qeq_bool_iff; reflexivity].
Qed.

Lemma dict_mem_keys (d1 d2 : dict) (k : Q) :
  keys d1 = keys d2 -> dict_mem d1 k = dict_mem d2 k.
Proof. unfold dict_mem. intros ->. reflexivity. Qed.

(** Writing to a key that is present keeps the key list as it is. *)
Lemma dict_set_keys (d : dict) (k v : Q) :
  dict_mem d k = true -> keys (dict_set d k v) = keys d.
Proof.
  unfold dict_mem, keys.
  induction d as [|[k' v'] d IH]; simpl; [discriminate|].
  destruct (Qeq_bool k' k); simpl; [reflexivity|].
  intros H. rewrite IH by exact H. reflexivity.
Qed.

Lemma wf_dict_keys (d1 d2 : dict) :
  keys d1 = keys d2 -> wf_dict d1 = wf_dict d2.
Proof.
  revert d2. induction d1 as [|[k1 v1] d1 IH]; intros [|[k2 v2] d2] H;
    try discriminate; [reflexivity|].
  simpl in H. injection H as Hk Hd. subst k2.
  simpl. rewrite (dict_mem_keys d1 d2 k1 Hd), (IH d2 Hd). reflexivity.
Qed.

Lemma wf_dict_app_notin (d1 d2 : dict) (k v : Q) :
  wf_dict (d1 ++ (k, v) :: d2) = true -> dict_mem d1 k = false.
Proof.
  induction d1 as [|[k1 v1] d1 IH]; simpl; [reflexivity|].
  intros H. apply andb_true_iff in H. destruct H as [Hk Hwf].
  unfold dict_mem in *. simpl. rewrite (IH Hwf), orb_false_r.
  apply negb_true_iff in Hk.
  unfold keys in Hk. rewrite map_app, existsb_app in Hk.
  apply orb_false_iff in Hk. destruct Hk as [_ Hk].
  simpl in Hk. apply orb_false_iff in Hk. destruct Hk as [Hk _].
  rewrite Qeq_bool_sym. exact Hk.
Qed.

Lemma dict_get_app (d1 d2 : dict) (k v : Q) :
  dict_mem d1 k = false -> dict_get (d1 ++ (k, v) :: d2) k = Ok v.
Proof.
  unfold dict_mem, keys.
  induction d1 as [|[k1 v1] d1 IH]; simpl.
  - intros _. rewrite Qeq_bool_refl. reflexivity.
  - intros H. apply orb_false_iff in H. destruct H as [H1 H2].
    rewrite H1. apply IH. exact H2.
Qed.

Lemma dict_set_app (d1 d2 : dict) (k v v' : Q) :
  dict_mem d1 k = false ->
  dict_set (d1 ++ (k, v) :: d2) k v' = d1 ++ (k, v') :: d2.
Proof.
  unfold dict_mem, keys.
  induction d1 as [|[k1 v1] d1 IH]; simpl.
  - intros _. rewrite Qeq_bool_refl. reflexivity.
  - intros H. apply orb_false_iff in H. destruct H as [H1 H2].
    rewrite H1, (IH H2). reflexivity.
Qed.

(** ** The decay loop of [update_histogram] *)

Lemma decayed_keys (alpha : Q) (h : dict) : keys (decayed alpha h) = keys h.
Proof.
  unfold keys, decayed. rewrite map_map. reflexivity.
Qed.

(** Whatever the dictionary, the loop over its own keys never fails and
    leaves the key list untouched. *)
Lemma decay_loop_keys (alpha : Q) (ks : list Q) (h : dict) :
  (forall k, In k ks -> dict_mem h k = true) ->
  exists h', for_each (decay_body alpha) ks h = Ok h' /\ keys h' = keys h.
Proof.
  revert h. induction ks as [|k ks IH]; intros h Hin; simpl.
  - exists h. split; reflexivity.
  - assert (Hk : dict_mem h k = true) by (apply Hin; left; reflexivity).
    destruct (dict_mem_get h k Hk) as [v Hv].
    unfold decay_body at 1. rewrite Hv. cbn [bind].
    pose proof (dict_set_keys h k (v * (1 - alpha)) Hk) as Hkeys.
    destruct (IH (dict_set h k (v * (1 - alpha)))) as (h' & Hrun & Hk').
    { intros k0 Hk0. rewrite (dict_mem_keys _ h k0 Hkeys).
      apply Hin. right. exact Hk0. }
    exists h'. split; [exact Hrun | congruence].
Qed.

(** On a dictionary (no key twice) the loop multiplies every weight by
    [1 - alpha]. *)
Lemma decay_loop_wf (alpha : Q) (done todo : dict) :
  wf_dict (done ++ todo) = true ->
  for_each (decay_body alpha) (keys todo) (decayed alpha done ++ todo)
  = Ok (decayed alpha (done ++ todo)).
Proof.
  revert done. induction todo as [|[k v] todo IH]; intros done Hwf.
  - simpl. rewrite !app_nil_r. reflexivity.
  - assert (Hnot : dict_mem (decayed alpha done) k = false).
    { rewrite (dict_mem_keys _ done k (decayed_keys alpha done)).
      exact (wf_dict_app_notin done todo k v Hwf). }
    cbn [keys map fst for_each]. unfold decay_body at 1.
    rewrite (dict_get_app _ _ _ _ Hnot). cbn [bind].
    rewrite (dict_set_app _ _ _ _ _ Hnot).
    replace (decayed alpha done ++ (k, v * (1 - alpha)) :: todo)
      with (decayed alpha (done ++ [(k, v)]) ++ todo)
      by (unfold decayed; rewrite map_app, <- app_assoc; reflexivity).
    change (map fst todo) with (keys todo).
    rewrite IH by (rewrite <- app_assoc; exact Hwf).
    rewrite <- app_assoc. reflexivity.
Qed.

Lemma decay_loop_decayed (alpha : Q) (h : dict) :
  wf_dict h = true ->
  for_each (decay_body alpha) (keys h) h = Ok (decayed alpha h).
Proof.
  intros Hwf. exact (decay_loop_wf alpha [] h Hwf).
Qed.

(** ** Weights *)

Lemma total_weight_decayed (alpha : Q) (h : dict) :
  total_weight (decayed alpha h) == total_weight h * (1 - alpha).
Proof.
  unfold total_weight, values, decayed, Qsum.
  induction h as [|[k v] h IH]; simpl.
  - ring.
  - rewrite IH. ring.
Qed.

Lemma total_weight_set (d : dict) (k v v' : Q) :
  dict_get d k = Ok v ->
  total_weight (dict_set d k v') == total_weight d - v + v'.
Proof.
  unfold total_weight, values, Qsum.
  induction d as [|[k1 v1] d IH]; simpl; [discriminate|].
  destruct (Qeq_bool k1 k); simpl.
  - intros H. injection H as ->. ring.
  - intros H. rewrite (IH H). ring.
Qed.

(** ** Binning *)

Lemma bins_grid : bins = grid.
Proof. vm_compute. reflexivity. Qed.

Lemma Qlt_bool_false (a b : Q) : Qlt_bool a b = false -> b <= a.
Proof.
  unfold Qlt_bool. intros H. apply negb_false_iff in H.
  apply Qle_bool_iff. exact H.
Qed.

(** Rounding and clamping always land on a grid point. *)
Lemma bin_of_on_grid (x_t : Q) :
  exists k, (k <= 100)%nat /\ bin_of x_t == inject_Z (Z.of_nat k) / 10.
Proof.
  unfold bin_of, np_round1.
  set (z := rint (x_t * 10)).
  destruct (Qlt_bool (inject_Z z / 10) 0) eqn:Elo.
  - exists 0%nat. split; [lia|]. reflexivity.
  - apply Qlt_bool_false in Elo.
    destruct (Qlt_bool 10 (inject_Z z / 10)) eqn:Ehi.
    + exists 100%nat. split; [lia|]. reflexivity.
    + apply Qlt_bool_false in Ehi.
      assert (Hz : (0 <= z <= 100)%Z).
      { unfold Qle, Qdiv, Qmult, Qinv, inject_Z in Elo, Ehi.
        simpl in Elo, Ehi. lia. }
      exists (Z.to_nat z). split; [lia|].
      rewrite Z2Nat.id by lia. reflexivity.
Qed.

Lemma bin_of_in_bins (h : dict) (x_t : Q) :
  keys h = bins -> dict_mem h (bin_of x_t) = true.
Proof.
  intros Hk. unfold dict_mem. rewrite Hk, bins_grid.
  destruct (bin_of_on_grid x_t) as (k & Hk100 & Heq).
  apply existsb_exists. exists (inject_Z (Z.of_nat k) / 10). split.
  - unfold grid. apply in_map_iff. exists k. split; [reflexivity|].
    apply in_seq. lia.
  - apply Qeq_bool_iff. symmetry. exact Heq.
Qed.

Lemma keys_h_t_init : keys h_t_init = bins.
Proof.
  unfold h_t_init, keys. rewrite map_map, map_id. reflexivity.
Qed.

Lemma wf_dict_bins (h : dict) : keys h = bins -> wf_dict h = true.
Proof.
  intros Hk. rewrite (wf_dict_keys h h_t_init).
  - vm_compute. reflexivity.
  - rewrite Hk. symmetry. exact keys_h_t_init.
Qed.

(** ** [update_histogram] *)

Lemma update_histogram_unfold (h_t : dict) (x_t alpha : Q) :
  update_histogram h_t x_t alpha
  = (h <- for_each (decay_body alpha) (keys h_t) h_t ;;
     v <- dict_get h (bin_of x_t) ;;
     Ok (dict_set h (bin_of x_t) (v + alpha))).
Proof. reflexivity. Qed.

Lemma update_histogram_keys (h_t : dict) (x_t alpha : Q) (h' : dict) :
  update_histogram h_t x_t alpha = Ok h' -> keys h' = keys h_t.
Proof.
  rewrite update_histogram_unfold.
  destruct (decay_loop_keys alpha (keys h_t) h_t (dict_mem_In h_t))
    as (h1 & Hrun & Hk1).
  rewrite Hrun. cbn [bind].
  destruct (dict_get h1 (bin_of x_t)) as [v|e] eqn:Hget; cbn [bind];
    [|discriminate].
  intros H. injection H as <-.
  rewrite dict_set_keys by exact (dict_get_mem _ _ _ Hget).
  exact Hk1.
Qed.

Lemma update_histogram_returns (h_t : dict) (x_t alpha : Q) :
  keys h_t = bins -> exists h', update_histogram h_t x_t alpha = Ok h'.
Proof.
  intros Hk. rewrite update_histogram_unfold.
  destruct (decay_loop_keys alpha (keys h_t) h_t (dict_mem_In h_t))
    as (h1 & Hrun & Hk1).
  rewrite Hrun. cbn [bind].
  destruct (dict_mem_get h1 (bin_of x_t)) as [v Hv].
  { apply bin_of_in_bins. congruence. }
  rewrite Hv. cbn [bind]. eexists. reflexivity.
Qed.

Lemma update_histogram_wf (h_t : dict) (x_t alpha : Q) :
  wf_dict h_t = true ->
  update_histogram h_t x_t alpha
  = (v <- dict_get (decayed alpha h_t) (bin_of x_t) ;;
     Ok (dict_set (decayed alpha h_t) (bin_of x_t) (v + alpha))).
Proof.
  intros Hwf. rewrite update_histogram_unfold.
  rewrite (decay_loop_decayed alpha h_t Hwf). reflexivity.
Qed.

Lemma update_histogram_total (h_t : dict) (x_t alpha : Q) (h' : dict) :
  wf_dict h_t = true ->
  update_histogram h_t x_t alpha = Ok h' ->
  total_weight h' == total_weight h_t * (1 - alpha) + alpha.
Proof.
  intros Hwf. rewrite (update_histogram_wf _ _ _ Hwf).
  destruct (dict_get (decayed alpha h_t) (bin_of x_t)) as [v|e] eqn:Hget;
    cbn [bind]; [|discriminate].
  intros H. injection H as <-.
  rewrite (total_weight_set _ _ _ _ Hget), total_weight_decayed. ring.
Qed.

(** C8.  The bins are the one-decimal grid on [0, 10], they are the keys
    of the initial histogram, and no update changes the key list: an
    update that returns leaves the keys as they were, and on a histogram
    keyed by the bins every update returns, for every input and every
    [alpha], because the rounded and clamped input is one of the bins. *)
Theorem update_histogram_keeps_bins :
  bins = grid
  /\ keys h_t_init = bins
  /\ (forall x_t, dict_mem h_t_init (bin_of x_t) = true)
  /\ (forall h_t x_t alpha h',
         update_histogram h_t x_t alpha = Ok h' -> keys h' = keys h_t)
  /\ (forall h_t x_t alpha,
         keys h_t = bins ->
         exists h', update_histogram h_t x_t alpha = Ok h' /\ keys h' = bins).
Proof.
  pose proof keys_h_t_init as Hinit.
  split; [exact bins_grid|].
  split; [exact Hinit|].
  split; [intros x_t; apply bin_of_in_bins; exact Hinit|].
  split; [exact update_histogram_keys|].
  intros h_t x_t alpha Hk.
  destruct (update_histogram_returns h_t x_t alpha Hk) as [h' Hrun].
  exists h'. split; [exact Hrun|].
  rewrite (update_histogram_keys _ _ _ _ Hrun). exact Hk.
Qed.

Lemma update_histogram_keeps_bins_witness :
  exists h', update_histogram h_t_init (1234 # 100) (1 # 10) = Ok h'
             /\ keys h' = bins.
Proof.
  apply (proj2 (proj2 (proj2 (proj2 update_histogram_keeps_bins)))).
  vm_compute. reflexivity.
Defined.

(** ** The histogram driver loop *)

Lemma hist_loop_states (alpha : Q) (x : list Q) (h_t : dict) (h_all : list dict) :
  (st <- for_each (hist_body alpha) x (h_t, h_all) ;; Ok (snd st))
  = (rest <- later_states h_t alpha x ;; Ok (h_all ++ rest)).
Proof.
  revert h_t h_all. induction x as [|x_t x IH]; intros h_t h_all.
  - simpl. rewrite app_nil_r. reflexivity.
  - cbn [for_each later_states]. unfold hist_body at 1.
    destruct (update_histogram h_t x_t alpha) as [h'|e]; cbn [bind];
      [|reflexivity].
    rewrite IH.
    destruct (later_states h' alpha x) as [rest|e]; cbn [bind];
      [|reflexivity].
    rewrite <- app_assoc. reflexivity.
Qed.

Lemma histogram_loop_states (h_t : dict) (alpha : Q) (x : list Q) :
  histogram_loop h_t alpha x
  = (rest <- later_states h_t alpha x ;; Ok (h_t :: rest)).
Proof.
  unfold histogram_loop.
  change (fun (st : dict * list dict) x_t =>
            let (h_t0, h_all) := st in
            h_t1 <- update_histogram h_t0 x_t alpha ;;
            Ok (h_t1, h_all ++ [h_t1]))
    with (hist_body alpha).
  exact (hist_loop_states alpha x h_t [h_t]).
Qed.

Section HistogramInvariant.

Variable alpha : Q.
Variable P : dict -> Prop.
Hypothesis P_step :
  forall h_t x_t h', P h_t -> update_histogram h_t x_t alpha = Ok h' -> P h'.

Lemma later_states_invariant (x : list Q) (h_t : dict) (rest : list dict) :
  P h_t -> later_states h_t alpha x = Ok rest ->
  Forall P rest /\ length rest = length x.
Proof.
  revert h_t rest. induction x as [|x_t x IH]; intros h_t rest Hp; simpl.
  - intros H. injection H as <-. split; [constructor | reflexivity].
  - destruct (update_histogram h_t x_t alpha) as [h'|e] eqn:Hup; cbn [bind];
      [|discriminate].
    destruct (later_states h' alpha x) as [rest'|e] eqn:Hrest; cbn [bind];
      [|discriminate].
    intros H. injection H as <-.
    pose proof (P_step _ _ _ Hp Hup) as Hp'.
    destruct (IH h' rest' Hp' Hrest) as [Hall Hlen].
    split; [constructor; assumption | simpl; congruence].
Qed.

Hypothesis P_returns :
  forall h_t x_t, P h_t -> exists h', update_histogram h_t x_t alpha = Ok h'.

Lemma later_states_returns (x : list Q) (h_t : dict) :
  P h_t -> exists rest, later_states h_t alpha x = Ok rest.
Proof.
  revert h_t. induction x as [|x_t x IH]; intros h_t Hp; simpl.
  - exists []. reflexivity.
  - destruct (P_returns h_t x_t Hp) as [h' Hup]. rewrite Hup. cbn [bind].
    destruct (IH h' (P_step _ _ _ Hp Hup)) as [rest Hrest].
    rewrite Hrest. cbn [bind]. eexists. reflexivity.
Qed.

End HistogramInvariant.

Lemma histogram_loop_returns (h_t : dict) (alpha : Q) (x : list Q) :
  keys h_t = bins ->
  exists h_all, histogram_loop h_t alpha x = Ok h_all
                /\ length h_all = Datatypes.S (length x)
                /\ Forall (fun s => keys s = bins) h_all.
Proof.
  intros Hk. rewrite histogram_loop_states.
  assert (Hstep : forall h x_t h', keys h = bins ->
                    update_histogram h x_t alpha = Ok h' -> keys h' = bins).
  { intros h x_t h' Hh Hup.
    rewrite (update_histogram_keys _ _ _ _ Hup). exact Hh. }
  destruct (later_states_returns alpha (fun s => keys s = bins) Hstep
              (fun h x_t Hh => update_histogram_returns h x_t alpha Hh)
              x h_t Hk) as [rest Hrest].
  destruct (later_states_invariant alpha _ Hstep x h_t rest Hk Hrest)
    as [Hall Hlen].
  rewrite Hrest. cbn [bind]. exists (h_t :: rest).
  split; [reflexivity|]. split; [simpl; congruence|].
  constructor; assumption.
Qed.

(** ** Lengths of the histories *)

(** C5 as stated fails on the histogram driver: on the one-element input
    [[1]] its history has two states. *)
Lemma histogram_history_has_extra_state :
  exists h_all, histogram_history [1] = Ok h_all
                /\ length h_all = 2%nat
                /\ length h_all <> length [1].
Proof.
  destruct (histogram_loop_returns h_t_init (1 # 10) [1])
    as (h_all & Hrun & Hlen & _).
  { exact keys_h_t_init. }
  exists h_all. split; [exact Hrun|].
  split; [exact Hlen|]. rewrite Hlen. discriminate.
Qed.

(** C5 (amended).  On a non-empty input the exponential average, the
    running maximum and the zero-crossing count return one state per input
    element.  The histogram driver returns one state more than there are
    inputs, on every input: the initial histogram first, then, in input
    order, the histogram after each element. *)
Theorem history_lengths :
  (forall x alpha,
      x <> [] ->
      (exists h, exponential_average x alpha = Ok h /\ length h = length x)
      /\ (exists h, running_maximum x = Ok h /\ length h = length x)
      /\ (exists h, zero_cross_history x = Ok h /\ length h = length x))
  /\ (forall x,
         exists h_all,
           histogram_history x = Ok h_all
           /\ length h_all = Datatypes.S (length x)
           /\ nth_error h_all 0 = Some h_t_init
           /\ forall p x_t h_prev,
                nth_error x p = Some x_t ->
                nth_error h_all p = Some h_prev ->
                exists h_next,
                  update_histogram h_prev x_t (1 # 10) = Ok h_next
                  /\ nth_error h_all (Datatypes.S p) = Some h_next).
Proof.
  split.
  - intros x alpha Hx. destruct x as [|x_0 xs]; [contradiction|].
    destruct (exponential_average_run x_0 xs alpha) as (h1 & R1 & L1 & _).
    destruct (running_maximum_run x_0 xs) as (h2 & R2 & L2 & _).
    destruct (zero_cross_history_run x_0 xs) as (h3 & R3 & L3 & _).
    split; [exists h1; split; assumption|].
    split; [exists h2; split; assumption|].
    exists h3; split; assumption.
  - intros x. unfold histogram_history.
    destruct (histogram_loop_returns h_t_init (1 # 10) x)
      as (h_all & Hrun & Hlen & _).
    { exact keys_h_t_init. }
    exists h_all. split; [exact Hrun|]. split; [exact Hlen|].
    rewrite histogram_loop_states in Hrun. clear Hlen.
    destruct (later_states h_t_init (1 # 10) x) as [rest|e] eqn:Hrest;
      cbn [bind] in Hrun; [|discriminate].
    injection Hrun as <-. split; [cbn [nth_error]; reflexivity|].
    revert Hrest. generalize h_t_init as h_t. revert rest.
    induction x as [|x_0 xs IH]; intros rest h_t Hrest p x_t h_prev Hx Hp.
    + destruct p; discriminate.
    + simpl in Hrest.
      destruct (update_histogram h_t x_0 (1 # 10)) as [h'|e] eqn:Hup;
        cbn [bind] in Hrest; [|discriminate].
      destruct (later_states h' (1 # 10) xs) as [rest'|e] eqn:Hrest';
        cbn [bind] in Hrest; [|discriminate].
      injection Hrest as <-.
      destruct p as [|p].
      * simpl in Hx, Hp. injection Hx as <-. injection Hp as <-.
        exists h'. split; [exact Hup | reflexivity].
      * simpl in Hx, Hp. exact (IH rest' h' Hrest' p x_t h_prev Hx Hp).
Qed.

Lemma history_lengths_witness :
  (exists h, exponential_average [2; 7; 1] (9 # 10) = Ok h
             /\ length h = 3%nat)
  /\ (exists h, running_maximum [2; 7; 1] = Ok h /\ length h = 3%nat)
  /\ (exists h, zero_cross_history [2; 7; 1] = Ok h /\ length h = 3%nat).
Proof.
  apply (proj1 history_lengths [2; 7; 1] (9 # 10)). discriminate.
Defined.

(** ** The empty input *)

(** C9 as stated fails on the histogram driver: on the empty input it
    returns a history and raises nothing. *)
Lemma histogram_history_empty_returns :
  histogram_history [] = Ok [h_t_init]
  /\ ~ (exists e, histogram_history [] = Raise e).
Proof.
  assert (H : histogram_history [] = Ok [h_t_init]).
  { unfold histogram_history. rewrite histogram_loop_states.
    cbn [later_states bind]. reflexivity. }
  split; [exact H|]. intros [e He]. rewrite H in He. discriminate.
Qed.

(** C9 (amended).  The evaluators that take their first state from
    [x[0]] raise [IndexError] on the empty input: the exponential average
    for every [alpha], the running maximum and the zero-crossing count.
    The histogram driver starts from its own initial state and returns the
    history that holds only that state. *)
Theorem empty_input :
  (forall alpha, exponential_average [] alpha = Raise IndexError)
  /\ running_maximum [] = Raise IndexError
  /\ zero_cross_history [] = Raise IndexError
  /\ histogram_history [] = Ok [h_t_init].
Proof.
  split; [intros alpha; reflexivity|].
  split; [reflexivity|]. split; [reflexivity|].
  unfold histogram_history. rewrite histogram_loop_states.
  cbn [later_states bind]. reflexivity.
Qed.

(** ** Running variance *)

Lemma Q_of_nat_succ (n : nat) : Q_of_nat (Datatypes.S n) == Q_of_nat n + 1.
Proof.
  unfold Q_of_nat. rewrite Nat2Z.inj_succ. unfold Z.succ.
  rewrite inject_Z_plus. reflexivity.
Qed.

Lemma Q_of_nat_nonneg (n : nat) : 0 <= Q_of_nat n.
Proof.
  unfold Q_of_nat, Qle. simpl. lia.
Qed.

Lemma Q_of_nat_succ_nonzero (n : nat) : ~ Q_of_nat n + 1 == 0.
Proof.
  intros H. pose proof (Q_of_nat_nonneg n) as Hn.
  assert (Hlt : 0 < Q_of_nat n + 1).
  { apply Qlt_le_trans with (0 + 1); [reflexivity|].
    apply Qplus_le_compat; [exact Hn | apply Qle_refl]. }
  rewrite H in Hlt. exact (Qlt_irrefl 0 Hlt).
Qed.

Lemma Qsum_snoc (l : list Q) (a : Q) : Qsum (l ++ [a]) == Qsum l + a.
Proof.
  unfold Qsum. induction l as [|b l IH]; simpl; [ring | rewrite IH; ring].
Qed.

Lemma sum_of_squares_snoc (l : list Q) (a : Q) :
  sum_of_squares (l ++ [a]) == sum_of_squares l + a * a.
Proof.
  unfold sum_of_squares. rewrite map_app. apply Qsum_snoc.
Qed.

Lemma squared_deviations_expand (l : list Q) (m : Q) :
  squared_deviations l m
  == sum_of_squares l - 2 * m * Qsum l + Q_of_nat (length l) * m * m.
Proof.
  unfold squared_deviations, sum_of_squares, Qsum.
  induction l as [|a l IH].
  - simpl. unfold Q_of_nat. simpl. ring.
  - cbn [map fold_right length]. rewrite IH, Q_of_nat_succ. ring.
Qed.

Lemma var_inv_init (m v : Q) : var_inv [] m v.
Proof.
  unfold var_inv, squared_deviations, Q_of_nat, Qsum. simpl. split; ring.
Qed.

Lemma var_inv_step (pre : list Q) (m v a : Q) :
  var_inv pre m v ->
  let p := Datatypes.S (length pre) in
  let m' := running_mean_step p m a in
  var_inv (pre ++ [a]) m' (running_var_step p v m' m a).
Proof.
  intros [Hm Hv]. cbv zeta.
  rewrite squared_deviations_expand in Hv.
  unfold var_inv.
  rewrite squared_deviations_expand, sum_of_squares_snoc, Qsum_snoc.
  rewrite length_app. cbn [length]. rewrite Nat.add_1_r.
  unfold running_var_step, running_mean_step.
  rewrite !Q_of_nat_succ.
  pose proof (Q_of_nat_succ_nonzero (length pre)) as Hnz.
  set (N := Q_of_nat (length pre)) in *.
  assert (Hs : Qsum pre == N * m) by (symmetry; exact Hm).
  assert (Hq : sum_of_squares pre == N * v + N * m * m).
  { rewrite Hs in Hv. rewrite Hv. ring. }
  rewrite Hs, Hq.
  split; field; exact Hnz.
Qed.

Lemma running_variance_from_inv (x pre : list Q) (m v : Q) (i : nat)
      (h_ave h_var : Q) :
  var_inv pre m v ->
  nth_error (running_variance_from (Datatypes.S (length pre)) m v x) i
  = Some (h_ave, h_var) ->
  var_inv (pre ++ firstn (Datatypes.S i) x) h_ave h_var.
Proof.
  revert pre m v i. induction x as [|a x IH]; intros pre m v i Hinv Hnth.
  - destruct i; discriminate.
  - pose proof (var_inv_step pre m v a Hinv) as Hstep. cbv zeta in Hstep.
    cbn [running_variance_from] in Hnth. destruct i as [|i].
    + simpl in Hnth. injection Hnth as <- <-. exact Hstep.
    + cbn [nth_error] in Hnth.
      assert (Hl : length (pre ++ [a]) = Datatypes.S (length pre))
        by (rewrite length_app; simpl; lia).
      pose proof (IH (pre ++ [a]) _ _ i Hstep) as H.
      rewrite Hl, <- app_assoc in H. exact (H Hnth).
Qed.

Lemma running_variance_from_length (x : list Q) (p : nat) (m v : Q) :
  length (running_variance_from p m v x) = length x.
Proof.
  revert p m v. induction x as [|a x IH]; intros p m v; simpl;
    [reflexivity | rewrite IH; reflexivity].
Qed.

(** C2.  At every step [p] of a run over [x], whatever the seed, the
    running mean is the mean of the prefix [x_1..x_p] and the running
    variance is the population variance
    [(1/p) * sum_j (x_j - h_ave_p)^2] of that prefix, exactly over the
    rationals.  Steps are counted from 1: step [p] is list index [p-1]. *)
Theorem running_variance_is_population_variance
        (h_ave_0 h_var_0 : Q) (x : list Q) (p : nat) :
  (1 <= p <= length x)%nat ->
  exists h_ave h_var,
    nth_error (running_variance h_ave_0 h_var_0 x) (p - 1) = Some (h_ave, h_var)
    /\ h_ave == naive_mean (firstn p x)
    /\ h_var == naive_variance (firstn p x) h_ave.
Proof.
  intros [Hp1 Hp2].
  destruct (nth_error (running_variance h_ave_0 h_var_0 x) (p - 1))
    as [[h_ave h_var]|] eqn:Hnth.
  2:{ apply nth_error_None in Hnth. unfold running_variance in Hnth.
      rewrite running_variance_from_length in Hnth. lia. }
  exists h_ave, h_var. split; [reflexivity|].
  pose proof (running_variance_from_inv x [] h_ave_0 h_var_0 (p - 1)
                h_ave h_var (var_inv_init _ _) Hnth) as [Hm Hv].
  replace (Datatypes.S (p - 1)) with p in Hm, Hv by lia.
  cbn [app] in Hm, Hv.
  unfold naive_mean, naive_variance.
  assert (Hlen : length (firstn p x) = Datatypes.S (p - 1)).
  { rewrite length_firstn. lia. }
  rewrite Hlen in *. rewrite Q_of_nat_succ in *.
  pose proof (Q_of_nat_succ_nonzero (p - 1)) as Hnz.
  split.
  - rewrite <- Hm. field. exact Hnz.
  - rewrite <- Hv. field. exact Hnz.
Qed.

Lemma running_variance_is_population_variance_witness :
  exists h_ave h_var,
    nth_error (running_variance 0 0 [2; 4; 4; 5]) (3 - 1) = Some (h_ave, h_var)
    /\ h_ave == naive_mean (firstn 3 [2; 4; 4; 5])
    /\ h_var == naive_variance (firstn 3 [2; 4; 4; 5]) h_ave.
Proof.
  apply (running_variance_is_population_variance 0 0 [2; 4; 4; 5] 3).
  simpl. lia.
Defined.

(* ================================================================== *)
(** * Part III: further properties of the cells *)
(* ================================================================== *)

(** ** Histories determined by a recurrence *)

(** Two histories that start alike and obey the same one-step recurrence
    agree as far as both obey it. *)
Lemma recurrence_agree (F : nat -> Q -> Q) (h h' : list Q) (n : nat) :
  nth 0 h 0 = nth 0 h' 0 ->
  (forall p, (p < n)%nat -> nth (Datatypes.S p) h 0 = F p (nth p h 0)) ->
  (forall p, (p < n)%nat -> nth (Datatypes.S p) h' 0 = F p (nth p h' 0)) ->
  forall p, (p <= n)%nat -> nth p h 0 = nth p h' 0.
Proof.
  intros H0 Hh Hh' p. induction p as [|p IH]; intros Hp.
  - exact H0.
  - rewrite Hh, Hh' by lia. rewrite IH by lia. reflexivity.
Qed.

Lemma prefix_of_agree (h h' : list Q) :
  (length h <= length h')%nat ->
  (forall p, (p < length h)%nat -> nth p h 0 = nth p h' 0) ->
  exists t, h' = h ++ t.
Proof.
  intros Hlen Hnth. exists (skipn (length h) h').
  rewrite <- (firstn_skipn (length h) h') at 1. f_equal.
  apply nth_ext with (d := 0) (d' := 0).
  - rewrite length_firstn. lia.
  - rewrite length_firstn. intros p Hp.
    rewrite nth_firstn.
    destruct (Nat.ltb_spec p (length h)) as [Hlt|Hge]; [|lia].
    symmetry. apply Hnth. exact Hlt.
Qed.

(** ** More on the exponential average *)

(** X1.  [exponential_average] never reads the last element of its
    input: two inputs that differ only there give the same history. *)
Theorem exponential_average_ignores_last_input
        (xs : list Q) (a b alpha : Q) :
  xs <> [] ->
  exponential_average (xs ++ [a]) alpha = exponential_average (xs ++ [b]) alpha.
Proof.
  intros Hxs. destruct xs as [|x_0 xs]; [contradiction|].
  cbn [app].
  destruct (exponential_average_run x_0 (xs ++ [a]) alpha)
    as (h & Hrun & Hlen & H0 & Hrec).
  destruct (exponential_average_run x_0 (xs ++ [b]) alpha)
    as (h' & Hrun' & Hlen' & H0' & Hrec').
  rewrite Hrun, Hrun'. f_equal.
  cbn [length] in Hlen, Hlen'. rewrite length_app in *. cbn [length] in *.
  assert (Hin : forall c p, (p < length xs + 1)%nat ->
                  nth p (x_0 :: xs ++ [c]) 0 = nth p (x_0 :: xs) 0).
  { intros c p Hp. change (x_0 :: xs ++ [c]) with ((x_0 :: xs) ++ [c]).
    apply app_nth1. simpl. lia. }
  apply nth_ext with (d := 0) (d' := 0); [congruence|].
  intros p Hp.
  apply (recurrence_agree
           (fun p h_p => alpha * h_p + (1 - alpha) * nth p (x_0 :: xs) 0)
           h h' (length xs + 1)).
  - congruence.
  - intros q Hq. rewrite (Hrec q Hq), (Hin a q Hq). reflexivity.
  - intros q Hq. rewrite (Hrec' q Hq), (Hin b q Hq). reflexivity.
  - lia.
Qed.

Lemma exponential_average_ignores_last_input_witness :
  exponential_average ([1; 2] ++ [3]) (1 # 2)
  = exponential_average ([1; 2] ++ [100]) (1 # 2).
Proof.
  apply (exponential_average_ignores_last_input [1; 2] 3 100 (1 # 2)).
  discriminate.
Defined.

(** ** More on the running maximum *)

Lemma Qmax_either (a b : Q) : Qmax a b = a \/ Qmax a b = b.
Proof.
  unfold Qmax, GenericMinMax.gmax. destruct (a ?= b); auto.
Qed.

(** X4.  Every state of the running maximum is the maximum of the inputs
    seen so far: it is at least each of [x[0..p]] and it is one of
    them. *)
Theorem running_maximum_is_prefix_maximum (x h : list Q) :
  running_maximum x = Ok h ->
  forall p, (p < length x)%nat ->
    (forall j, (j <= p)%nat -> nth j x 0 <= nth p h 0)
    /\ (exists j, (j <= p)%nat /\ nth p h 0 = nth j x 0).
Proof.
  intros Hrun. destruct x as [|x_0 xs]; [discriminate|].
  destruct (running_maximum_run x_0 xs) as (h1 & Hrun1 & Hlen & H0 & Hrec).
  rewrite Hrun1 in Hrun. injection Hrun as <-.
  intros p. induction p as [|p IH]; intros Hp.
  - split.
    + intros j Hj. replace j with 0%nat by lia. rewrite H0. apply Qle_refl.
    + exists 0%nat. split; [lia | exact H0].
  - cbn [length] in Hp.
    destruct IH as [IHle (j0 & Hj0 & IHeq)]; [simpl; lia|].
    rewrite Hrec by lia. split.
    + intros j Hj. destruct (Nat.eq_dec j (Datatypes.S p)) as [->|Hne].
      * apply Q.le_max_r.
      * apply Qle_trans with (nth p h1 0); [apply IHle; lia | apply Q.le_max_l].
    + destruct (Qmax_either (nth p h1 0) (nth (Datatypes.S p) (x_0 :: xs) 0))
        as [E|E]; rewrite E.
      * exists j0. split; [lia | exact IHeq].
      * exists (Datatypes.S p). split; [lia | reflexivity].
Qed.

Lemma running_maximum_is_prefix_maximum_witness :
  (forall j, (j <= 3)%nat -> nth j [0; 1; -1; 3; 1] 0 <= nth 3 [0; 1; 1; 3; 3] 0)
  /\ (exists j, (j <= 3)%nat
                /\ nth 3 [0; 1; 1; 3; 3] 0 = nth j [0; 1; -1; 3; 1] 0).
Proof.
  apply (running_maximum_is_prefix_maximum [0; 1; -1; 3; 1] [0; 1; 1; 3; 3]).
  - vm_compute. reflexivity.
  - simpl. lia.
Defined.

(** X5.  The running maximum of a running maximum changes nothing:
    feeding a history back into the loop returns the same values. *)
Theorem running_maximum_idempotent (x h : list Q) :
  running_maximum x = Ok h ->
  exists h', running_maximum h = Ok h'
             /\ length h' = length h
             /\ forall p, (p < length h)%nat -> nth p h' 0 == nth p h 0.
Proof.
  intros Hrun. destruct x as [|x_0 xs]; [discriminate|].
  destruct (running_maximum_run x_0 xs) as (h1 & Hrun1 & Hlen & H0 & Hrec).
  rewrite Hrun1 in Hrun. injection Hrun as <-.
  destruct h1 as [|y_0 ys]; [discriminate|].
  destruct (running_maximum_run y_0 ys) as (h2 & Hrun2 & Hlen2 & H02 & Hrec2).
  exists h2. split; [exact Hrun2|]. split; [exact Hlen2|].
  cbn [length] in *.
  intros p. induction p as [|p IH]; intros Hp.
  - rewrite H02. reflexivity.
  - rewrite Hrec2 by lia. rewrite IH by lia.
    apply Q.max_r. rewrite Hrec by lia. apply Q.le_max_l.
Qed.

Lemma running_maximum_idempotent_witness :
  exists h', running_maximum [0; 1; 1; 3; 3] = Ok h'
             /\ length h' = 5%nat
             /\ forall p, (p < 5)%nat -> nth p h' 0 == nth p [0; 1; 1; 3; 3] 0.
Proof.
  apply (running_maximum_idempotent [0; 1; -1; 3; 1] [0; 1; 1; 3; 3]).
  vm_compute. reflexivity.
Defined.

(** ** Causality *)

(** X6.  The three scalar histories are computed online: appending
    further inputs [y] leaves the states already produced for [x] as they
    are and only adds states after them. *)
Theorem histories_are_causal (x y : list Q) (alpha : Q) :
  x <> [] ->
  (forall h, exponential_average x alpha = Ok h ->
             exists t, exponential_average (x ++ y) alpha = Ok (h ++ t))
  /\ (forall h, running_maximum x = Ok h ->
                exists t, running_maximum (x ++ y) = Ok (h ++ t))
  /\ (forall h, zero_cross_history x = Ok h ->
                exists t, zero_cross_history (x ++ y) = Ok (h ++ t)).
Proof.
  intros Hx. destruct x as [|x_0 xs]; [contradiction|].
  cbn [app].
  assert (Hin : forall p, (p < Datatypes.S (length xs))%nat ->
                  nth p (x_0 :: xs ++ y) 0 = nth p (x_0 :: xs) 0).
  { intros p Hp. change (x_0 :: xs ++ y) with ((x_0 :: xs) ++ y).
    apply app_nth1. exact Hp. }
  assert (Hlen_app : (length xs <= length (xs ++ y))%nat)
    by (rewrite length_app; lia).
  split; [|split]; intros h Hrun.
  - destruct (exponential_average_run x_0 xs alpha)
      as (h1 & Hrun1 & Hlen1 & H01 & Hrec1).
    rewrite Hrun1 in Hrun. injection Hrun as <-.
    destruct (exponential_average_run x_0 (xs ++ y) alpha)
      as (h2 & Hrun2 & Hlen2 & H02 & Hrec2).
    cbn [length] in Hlen1, Hlen2.
    destruct (prefix_of_agree h1 h2) as [t Ht]; [lia| |].
    + intros p Hp.
      apply (recurrence_agree
               (fun p a => alpha * a + (1 - alpha) * nth p (x_0 :: xs) 0)
               h1 h2 (length xs)); [congruence | | | lia].
      * intros q Hq. apply Hrec1. exact Hq.
      * intros q Hq. rewrite Hrec2 by lia. rewrite Hin by lia. reflexivity.
    + exists t. rewrite Hrun2, Ht. reflexivity.
  - destruct (running_maximum_run x_0 xs)
      as (h1 & Hrun1 & Hlen1 & H01 & Hrec1).
    rewrite Hrun1 in Hrun. injection Hrun as <-.
    destruct (running_maximum_run x_0 (xs ++ y))
      as (h2 & Hrun2 & Hlen2 & H02 & Hrec2).
    cbn [length] in Hlen1, Hlen2.
    destruct (prefix_of_agree h1 h2) as [t Ht]; [lia| |].
    + intros p Hp.
      apply (recurrence_agree
               (fun p a => Qmax a (nth (Datatypes.S p) (x_0 :: xs) 0))
               h1 h2 (length xs)); [congruence | | | lia].
      * intros q Hq. apply Hrec1. exact Hq.
      * intros q Hq. rewrite Hrec2 by lia. rewrite Hin by lia. reflexivity.
    + exists t. rewrite Hrun2, Ht. reflexivity.
  - destruct (zero_cross_history_run x_0 xs)
      as (h1 & Hrun1 & Hlen1 & H01 & Hrec1).
    rewrite Hrun1 in Hrun. injection Hrun as <-.
    destruct (zero_cross_history_run x_0 (xs ++ y))
      as (h2 & Hrun2 & Hlen2 & H02 & Hrec2).
    cbn [length] in Hlen1, Hlen2.
    destruct (prefix_of_agree h1 h2) as [t Ht]; [lia| |].
    + intros p Hp.
      apply (recurrence_agree
               (fun p a =>
                  a + inject_Z (zero_cross_counter
                                  (nth (Datatypes.S p) (x_0 :: xs) 0)
                                  (nth p (x_0 :: xs) 0)))
               h1 h2 (length xs)); [congruence | | | lia].
      * intros q Hq. apply Hrec1. exact Hq.
      * intros q Hq. rewrite Hrec2 by lia. rewrite !Hin by lia. reflexivity.
    + exists t. rewrite Hrun2, Ht. reflexivity.
Qed.

Lemma histories_are_causal_witness :
  exists t, running_maximum ([2; 1] ++ [5; 0]) = Ok ([2; 2] ++ t).
Proof.
  apply (proj1 (proj2 (histories_are_causal [2; 1] [5; 0] 0
                                            ltac:(discriminate)))).
  vm_compute. reflexivity.
Defined.

(** ** More on the zero crossings *)

Lemma zero_cross_counter_same_sign (a b : Q) :
  (0 < a /\ 0 < b) \/ (a < 0 /\ b < 0) -> zero_cross_counter b a = 0%Z.
Proof.
  intros Hs.
  destruct (zero_cross_counter_cases b a) as [[Hst _]|[_ Hc]]; [|exact Hc].
  unfold straddles in Hst. exfalso. lra.
Qed.

(** X8.  On an input whose elements are all strictly positive, or all
    strictly negative, nothing is ever counted: every state equals the
    first input. *)
Theorem zero_cross_history_one_sign (x h : list Q) :
  zero_cross_history x = Ok h ->
  (forall i, (i < length x)%nat -> 0 < nth i x 0)
  \/ (forall i, (i < length x)%nat -> nth i x 0 < 0) ->
  forall p, (p < length h)%nat -> nth p h 0 == nth 0 x 0.
Proof.
  intros Hrun Hsign. destruct x as [|x_0 xs]; [discriminate|].
  destruct (zero_cross_history_run x_0 xs) as (h1 & Hrun1 & Hlen & H0 & Hrec).
  rewrite Hrun1 in Hrun. injection Hrun as <-.
  cbn [length] in Hlen. cbn [nth].
  intros p. induction p as [|p IH]; intros Hp.
  - rewrite H0. reflexivity.
  - rewrite Hrec by lia. rewrite IH by lia.
    rewrite zero_cross_counter_same_sign.
    + change (inject_Z 0) with 0. ring.
    + destruct Hsign as [Hpos|Hneg]; [left | right]; split;
        first [apply Hpos | apply Hneg]; simpl; lia.
Qed.

Lemma zero_cross_history_one_sign_witness :
  nth 2 [2; 2; 2] 0 == nth 0 [2; 7; 1] 0.
Proof.
  apply (zero_cross_history_one_sign [2; 7; 1] [2; 2; 2]).
  - vm_compute. reflexivity.
  - left. intros i Hi.
    destruct i as [|[|[|i]]]; simpl in Hi; try lia; reflexivity.
  - simpl. lia.
Defined.

Lemma straddles_sym (a b : Q) : straddles a b <-> straddles b a.
Proof. unfold straddles. tauto. Qed.

Lemma straddles_opp (a b : Q) : straddles (- a) (- b) <-> straddles a b.
Proof.
  unfold straddles. split; intros [[H1 H2]|[H1 H2]];
    first [left; split; lra | right; split; lra].
Qed.

(** X7.  The zero-crossing history never decreases and never falls
    below the first input: every step adds 0 or 1 to the state before. *)
Theorem zero_cross_history_never_decreases (x h : list Q) :
  zero_cross_history x = Ok h ->
  (forall p, (Datatypes.S p < length h)%nat ->
             nth p h 0 <= nth (Datatypes.S p) h 0)
  /\ (forall p, (p < length h)%nat -> nth 0 x 0 <= nth p h 0).
Proof.
  intros Hrun. destruct x as [|x_0 xs]; [discriminate|].
  destruct (zero_cross_history_run x_0 xs) as (h1 & Hrun1 & Hlen & H0 & Hrec).
  rewrite Hrun1 in Hrun. injection Hrun as <-.
  cbn [length] in Hlen.
  assert (Hstep : forall p, (Datatypes.S p < length h1)%nat ->
             nth p h1 0 <= nth (Datatypes.S p) h1 0).
  { intros p Hp. rewrite Hrec by lia.
    destruct (zero_cross_counter_cases (nth (Datatypes.S p) (x_0 :: xs) 0)
                                       (nth p (x_0 :: xs) 0))
      as [[_ Hc]|[_ Hc]]; rewrite Hc.
    - change (inject_Z 1) with 1. lra.
    - change (inject_Z 0) with 0. lra. }
  split; [exact Hstep|].
  cbn [nth].
  intros p. induction p as [|p IH]; intros Hp.
  - rewrite H0. apply Qle_refl.
  - apply Qle_trans with (nth p h1 0); [apply IH; lia | apply Hstep; exact Hp].
Qed.

Lemma zero_cross_history_never_decreases_witness :
  nth 1 [5; 6; 7] 0 <= nth 2 [5; 6; 7] 0.
Proof.
  apply (proj1 (zero_cross_history_never_decreases [5; -1; 2] [5; 6; 7]
                  ltac:(vm_compute; reflexivity))).
  simpl. lia.
Defined.

(** X9.  [zero_cross_counter] does not depend on the order of its two
    arguments nor on the sign of the signal: a pair and the reversed
    pair, a pair and the negated pair, are counted alike. *)
Theorem zero_cross_counter_symmetric :
  (forall a b, zero_cross_counter a b = zero_cross_counter b a)
  /\ (forall a b, zero_cross_counter (- a) (- b) = zero_cross_counter a b).
Proof.
  split; intros a b.
  - destruct (zero_cross_counter_cases a b) as [[S1 C1]|[S1 C1]],
             (zero_cross_counter_cases b a) as [[S2 C2]|[S2 C2]];
      rewrite C1, C2; try reflexivity; exfalso;
      pose proof (straddles_sym a b); tauto.
  - destruct (zero_cross_counter_cases (- a) (- b)) as [[S1 C1]|[S1 C1]],
             (zero_cross_counter_cases a b) as [[S2 C2]|[S2 C2]];
      rewrite C1, C2; try reflexivity; exfalso;
      pose proof (straddles_opp b a); tauto.
Qed.

(** ** More on dictionaries *)

Lemma Qeq_bool_trans_eq (a b c : Q) :
  Qeq_bool a b = true -> Qeq_bool a c = Qeq_bool b c.
Proof.
  intros Hab. apply Qeq_bool_iff in Hab.
  destruct (Qeq_bool a c) eqn:Eac, (Qeq_bool b c) eqn:Ebc; try reflexivity.
  - apply Qeq_bool_iff in Eac.
    assert (Hbc : b == c) by (rewrite <- Hab; exact Eac).
    apply Qeq_bool_iff in Hbc. congruence.
  - apply Qeq_bool_iff in Ebc.
    assert (Hac : a == c) by (rewrite Hab; exact Ebc).
    apply Qeq_bool_iff in Hac. congruence.
Qed.

Lemma dict_get_notmem (d : dict) (k : Q) :
  dict_mem d k = false -> dict_get d k = Raise KeyError.
Proof.
  unfold dict_mem, keys.
  induction d as [|[k' v'] d IH]; simpl; [reflexivity|].
  destruct (Qeq_bool k' k); simpl; [discriminate | exact IH].
Qed.

(** Keys that are equal as numbers read the same entry. *)
Lemma dict_get_key_eq (d : dict) (k k' : Q) :
  Qeq_bool k k' = true -> dict_get d k = dict_get d k'.
Proof.
  intros Hk. induction d as [|[k1 v1] d IH]; simpl; [reflexivity|].
  rewrite (Qeq_bool_sym k1 k), (Qeq_bool_sym k1 k').
  rewrite (Qeq_bool_trans_eq k k' k1 Hk), IH. reflexivity.
Qed.

(** Reading after writing. *)
Lemma dict_get_set (d : dict) (b w k : Q) :
  dict_get (dict_set d b w) k
  = if Qeq_bool b k then Ok w else dict_get d k.
Proof.
  induction d as [|[k1 v1] d IH]; simpl; [reflexivity|].
  destruct (Qeq_bool k1 b) eqn:E1; simpl.
  - rewrite (Qeq_bool_trans_eq k1 b k E1).
    destruct (Qeq_bool b k); reflexivity.
  - destruct (Qeq_bool k1 k) eqn:E2.
    + rewrite (Qeq_bool_sym b k), <- (Qeq_bool_trans_eq k1 k b E2), E1.
      reflexivity.
    + exact IH.
Qed.

Lemma dict_get_decayed (alpha : Q) (h : dict) (k : Q) :
  dict_get (decayed alpha h) k
  = (v <- dict_get h k ;; Ok (v * (1 - alpha))).
Proof.
  unfold decayed. induction h as [|[k1 v1] h IH]; simpl; [reflexivity|].
  destruct (Qeq_bool k1 k); [reflexivity | exact IH].
Qed.

Lemma dict_get_In_values (d : dict) (k v : Q) :
  dict_get d k = Ok v -> In v (values d).
Proof.
  unfold values. induction d as [|[k1 v1] d IH]; simpl; [discriminate|].
  destruct (Qeq_bool k1 k).
  - intros H. injection H as ->. left. reflexivity.
  - intros H. right. exact (IH H).
Qed.

Lemma dict_set_values_Forall (P : Q -> Prop) (d : dict) (k w : Q) :
  Forall P (values d) -> P w -> Forall P (values (dict_set d k w)).
Proof.
  unfold values. intros Hd Hw.
  induction d as [|[k1 v1] d IH]; simpl.
  - constructor; [exact Hw | constructor].
  - simpl in Hd. inversion Hd as [|? ? Hv Hrest]; subst.
    destruct (Qeq_bool k1 k); simpl; constructor; auto.
Qed.

(** ** More on [update_histogram] *)

Lemma bin_of_range (x_t : Q) : 0 <= bin_of x_t <= 10.
Proof.
  destruct (bin_of_on_grid x_t) as (k & Hk & Heq). rewrite Heq.
  assert (H0 : inject_Z 0 <= inject_Z (Z.of_nat k))
    by (rewrite <- Zle_Qle; lia).
  assert (H100 : inject_Z (Z.of_nat k) <= inject_Z 100)
    by (rewrite <- Zle_Qle; lia).
  change (inject_Z 0) with 0 in H0. change (inject_Z 100) with 100 in H100.
  split.
  - apply Qle_shift_div_l; [reflexivity | lra].
  - apply Qle_shift_div_r; [reflexivity | lra].
Qed.

Lemma update_histogram_raises_without_bin (h_t : dict) (x_t alpha : Q) :
  dict_mem h_t (bin_of x_t) = false ->
  update_histogram h_t x_t alpha = Raise KeyError.
Proof.
  intros Hnot. rewrite update_histogram_unfold.
  destruct (decay_loop_keys alpha (keys h_t) h_t (dict_mem_In h_t))
    as (h1 & Hrun & Hk1).
  rewrite Hrun. cbn [bind].
  rewrite dict_get_notmem; [reflexivity|].
  rewrite (dict_mem_keys h1 h_t _ Hk1). exact Hnot.
Qed.

(** X11.  [update_histogram] never creates a bin: the key it credits is
    clamped to [[0, 10]], so on a dictionary none of whose keys lies in
    [[0, 10]], and in particular on the empty dictionary, every update
    raises [KeyError]. *)
Theorem update_histogram_missing_bin (h_t : dict) (x_t alpha : Q) :
  (forall k, In k (keys h_t) -> k < 0 \/ 10 < k) ->
  update_histogram h_t x_t alpha = Raise KeyError.
Proof.
  intros Hout. apply update_histogram_raises_without_bin.
  pose proof (bin_of_range x_t) as [Hlo Hhi].
  unfold dict_mem.
  destruct (existsb (fun k' => Qeq_bool k' (bin_of x_t)) (keys h_t)) eqn:E;
    [|reflexivity].
  exfalso. apply existsb_exists in E. destruct E as (k & Hin & Hk).
  apply Qeq_bool_iff in Hk. destruct (Hout k Hin); lra.
Qed.

Lemma update_histogram_missing_bin_witness :
  update_histogram [] (37 # 10) (1 # 10) = Raise KeyError
  /\ update_histogram [(20, 1); (- (1 # 2), 0)] (37 # 10) (1 # 10)
     = Raise KeyError.
Proof.
  split.
  - apply (update_histogram_missing_bin [] (37 # 10) (1 # 10)).
    intros k [].
  - apply (update_histogram_missing_bin
             [(20, 1); (- (1 # 2), 0)] (37 # 10) (1 # 10)).
    intros k [<-|[<-|[]]]; [right | left]; reflexivity.
Defined.

Lemma update_histogram_get (h_t : dict) (x_t alpha : Q) (h' : dict) (k v : Q) :
  wf_dict h_t = true ->
  update_histogram h_t x_t alpha = Ok h' ->
  dict_get h_t k = Ok v ->
  dict_get h' k = Ok (updated_weight x_t alpha k v).
Proof.
  intros Hwf Hup Hget. rewrite (update_histogram_wf _ _ _ Hwf) in Hup.
  destruct (dict_get (decayed alpha h_t) (bin_of x_t)) as [vb|e] eqn:Hb;
    cbn [bind] in Hup; [|discriminate].
  injection Hup as <-.
  rewrite dict_get_set. unfold updated_weight.
  destruct (Qeq_bool (bin_of x_t) k) eqn:E.
  - rewrite (dict_get_key_eq _ _ _ E), dict_get_decayed, Hget in Hb.
    cbn [bind] in Hb. injection Hb as <-. reflexivity.
  - rewrite dict_get_decayed, Hget. reflexivity.
Qed.

Lemma for_each_invariant {A S : Type} (body : S -> A -> result S)
      (I : S -> Prop) (items : list A) :
  (forall s a s', I s -> body s a = Ok s' -> I s') ->
  forall s s', I s -> for_each body items s = Ok s' -> I s'.
Proof.
  intros Hbody. induction items as [|a items IH]; intros s s' Hs; simpl.
  - intros H. injection H as <-. exact Hs.
  - destruct (body s a) as [s1|e] eqn:Hb; cbn [bind]; [|discriminate].
    apply IH. exact (Hbody _ _ _ Hs Hb).
Qed.

Lemma update_histogram_nonneg (h_t : dict) (x_t alpha : Q) (h' : dict) :
  0 <= alpha <= 1 ->
  Forall (fun v => 0 <= v) (values h_t) ->
  update_histogram h_t x_t alpha = Ok h' ->
  Forall (fun v => 0 <= v) (values h').
Proof.
  intros [Ha0 Ha1] Hpos. rewrite update_histogram_unfold.
  destruct (for_each (decay_body alpha) (keys h_t) h_t) as [h1|e] eqn:Hloop;
    cbn [bind]; [|discriminate].
  assert (H1 : Forall (fun v => 0 <= v) (values h1)).
  { apply (for_each_invariant (decay_body alpha)
             (fun d => Forall (fun v => 0 <= v) (values d))
             (keys h_t)) with (s := h_t); [|exact Hpos|exact Hloop].
    intros d key d' Hd. unfold decay_body.
    destruct (dict_get d key) as [v|e] eqn:Hget; cbn [bind]; [|discriminate].
    intros H. injection H as <-.
    apply dict_set_values_Forall; [exact Hd|].
    pose proof (proj1 (Forall_forall _ _) Hd v (dict_get_In_values _ _ _ Hget))
      as Hv.
    cbv beta in Hv. apply Qmult_le_0_compat; lra. }
  destruct (dict_get h1 (bin_of x_t)) as [v|e] eqn:Hget; cbn [bind];
    [|discriminate].
  intros H. injection H as <-.
  apply dict_set_values_Forall; [exact H1|].
  pose proof (proj1 (Forall_forall _ _) H1 v (dict_get_In_values _ _ _ Hget))
    as Hv.
  cbv beta in Hv. lra.
Qed.

(** X13.  For [alpha] in [[0,1]] weights never become negative: an
    update of a histogram with non-negative weights has non-negative
    weights, and so has every state of the driver loop started from
    one. *)
Theorem histogram_weights_nonnegative (h_t : dict) (alpha : Q) :
  0 <= alpha <= 1 ->
  Forall (fun v => 0 <= v) (values h_t) ->
  (forall x_t h', update_histogram h_t x_t alpha = Ok h' ->
                  Forall (fun v => 0 <= v) (values h'))
  /\ (forall x h_all, histogram_loop h_t alpha x = Ok h_all ->
        Forall (fun s => Forall (fun v => 0 <= v) (values s)) h_all).
Proof.
  intros Halpha Hpos. split.
  - intros x_t h'. apply update_histogram_nonneg; assumption.
  - intros x h_all. rewrite histogram_loop_states.
    destruct (later_states h_t alpha x) as [rest|e] eqn:Hrest; cbn [bind];
      [|discriminate].
    intros H. injection H as <-.
    constructor; [exact Hpos|].
    apply (later_states_invariant alpha
             (fun s => Forall (fun v => 0 <= v) (values s))) in Hrest.
    + exact (proj1 Hrest).
    + intros h x_t h' Hh. apply update_histogram_nonneg; assumption.
    + exact Hpos.
Qed.

Lemma histogram_weights_nonnegative_witness :
  Forall (fun v => 0 <= v)
         (values [(0, 0 * (1 - (1 # 10))); (1, 0 * (1 - (1 # 10)) + (1 # 10))]).
Proof.
  apply (proj1 (histogram_weights_nonnegative [(0, 0); (1, 0)] (1 # 10)
                  ltac:(split; discriminate)
                  ltac:(repeat constructor; discriminate))
               (96 # 100)).
  vm_compute. reflexivity.
Defined.

(** ** More on binning *)

(** [rint] is within one half of its argument. *)
Lemma rint_near (q : Q) :
  q - (1 # 2) <= inject_Z (rint q) <= q + (1 # 2).
Proof.
  unfold rint.
  pose proof (Qfloor_le q) as Hlo.
  pose proof (Qlt_floor q) as Hhi.
  rewrite inject_Z_plus in Hhi. change (inject_Z 1) with 1 in Hhi.
  destruct (Qcompare (q - inject_Z (Qfloor q)) (1 # 2)) eqn:E.
  - apply Qeq_alt in E.
    destruct (Z.even (Qfloor q)).
    + split; lra.
    + rewrite inject_Z_plus. change (inject_Z 1) with 1. split; lra.
  - apply Qlt_alt in E. split; lra.
  - apply Qgt_alt in E.
    rewrite inject_Z_plus. change (inject_Z 1) with 1. split; lra.
Qed.

Lemma inject_Z_le_half (z n : Z) :
  inject_Z z <= inject_Z n + (1 # 2) -> inject_Z z <= inject_Z n.
Proof.
  intros H. rewrite <- Zle_Qle.
  unfold Qle, Qplus, inject_Z in H. simpl in H. lia.
Qed.

Lemma inject_Z_ge_half (z n : Z) :
  inject_Z n - (1 # 2) <= inject_Z z -> inject_Z n <= inject_Z z.
Proof.
  intros H. rewrite <- Zle_Qle.
  unfold Qle, Qminus, Qplus, Qopp, inject_Z in H. simpl in H. lia.
Qed.

Lemma np_round1_scaled (x : Q) : np_round1 x * 10 == inject_Z (rint (x * 10)).
Proof. unfold np_round1. field. Qed.

(** X15.  The bin credited for an input always lies in [[0, 10]], and
    out-of-range inputs pile up on the boundary bins: an input at or
    below 0 goes to bin 0 and an input at or above 10 to bin 10. *)
Theorem bin_of_saturates (x_t : Q) :
  0 <= bin_of x_t <= 10
  /\ (x_t <= 0 -> bin_of x_t == 0)
  /\ (10 <= x_t -> bin_of x_t == 10).
Proof.
  split; [exact (bin_of_range x_t)|].
  pose proof (rint_near (x_t * 10)) as [Hn1 Hn2].
  pose proof (np_round1_scaled x_t) as Hr.
  unfold bin_of.
  set (r := np_round1 x_t) in *.
  set (z := rint (x_t * 10)) in *.
  split.
  - intros Hx.
    assert (Hz : inject_Z z <= inject_Z 0)
      by (apply inject_Z_le_half; change (inject_Z 0) with 0; lra).
    change (inject_Z 0) with 0 in Hz.
    destruct (Qlt_bool r 0) eqn:E1.
    + change (Qlt_bool 10 0) with false. cbv iota. reflexivity.
    + apply Qlt_bool_false in E1.
      destruct (Qlt_bool 10 r) eqn:E2.
      * unfold Qlt_bool in E2. apply negb_true_iff in E2.
        assert (Hle : r <= 10) by lra.
        apply Qle_bool_iff in Hle. congruence.
      * apply Qle_antisym; lra.
  - intros Hx.
    assert (Hz : inject_Z 100 <= inject_Z z)
      by (apply inject_Z_ge_half; change (inject_Z 100) with 100; lra).
    change (inject_Z 100) with 100 in Hz.
    destruct (Qlt_bool r 0) eqn:E1.
    + unfold Qlt_bool in E1. apply negb_true_iff in E1.
      assert (Hle : 0 <= r) by lra.
      apply Qle_bool_iff in Hle. congruence.
    + destruct (Qlt_bool 10 r) eqn:E2; [reflexivity|].
      apply Qlt_bool_false in E2. apply Qle_antisym; lra.
Qed.

Lemma bin_of_saturates_witness :
  bin_of (-3) == 0 /\ bin_of (25 # 2) == 10.
Proof.
  split.
  - apply (proj1 (proj2 (bin_of_saturates (-3)))). discriminate.
  - apply (proj2 (proj2 (bin_of_saturates (25 # 2)))). discriminate.
Defined.

(** ** Boundary values of [alpha] in the histogram *)

Lemma update_histogram_get_back (h_t : dict) (x_t alpha : Q) (h' : dict)
      (k v' : Q) :
  update_histogram h_t x_t alpha = Ok h' ->
  dict_get h' k = Ok v' ->
  exists v, dict_get h_t k = Ok v.
Proof.
  intros Hup Hget. apply dict_mem_get.
  rewrite <- (dict_mem_keys h' h_t k (update_histogram_keys _ _ _ _ Hup)).
  exact (dict_get_mem _ _ _ Hget).
Qed.

(** X16.  With [alpha = 1] an update forgets the past and one-hot
    encodes the input: every weight is 0 or 1 and the weights sum to 1.
    With [alpha = 0] an update changes no weight. *)
Theorem update_histogram_boundary_alphas (h_t : dict) (x_t : Q) :
  wf_dict h_t = true ->
  (forall h', update_histogram h_t x_t 1 = Ok h' ->
              total_weight h' == 1
              /\ forall k v', dict_get h' k = Ok v' -> v' == 0 \/ v' == 1)
  /\ (forall h' k v', update_histogram h_t x_t 0 = Ok h' ->
                      dict_get h' k = Ok v' ->
                      exists v, dict_get h_t k = Ok v /\ v' == v).
Proof.
  intros Hwf. split.
  - intros h' Hup. split.
    + rewrite (update_histogram_total _ _ _ _ Hwf Hup). ring.
    + intros k v' Hget.
      destruct (update_histogram_get_back _ _ _ _ _ _ Hup Hget) as [v Hv].
      rewrite (update_histogram_get _ _ _ _ _ _ Hwf Hup Hv) in Hget.
      injection Hget as <-. unfold updated_weight.
      destruct (Qeq_bool (bin_of x_t) k); [right | left]; ring.
  - intros h' k v' Hup Hget.
    destruct (update_histogram_get_back _ _ _ _ _ _ Hup Hget) as [v Hv].
    exists v. split; [exact Hv|].
    rewrite (update_histogram_get _ _ _ _ _ _ Hwf Hup Hv) in Hget.
    injection Hget as <-. unfold updated_weight.
    destruct (Qeq_bool (bin_of x_t) k).
    + ring.
    + ring.
Qed.

Lemma update_histogram_boundary_alphas_witness :
  total_weight [(0, (1 # 3) * (1 - 1)); (1, (2 # 3) * (1 - 1) + 1)] == 1
  /\ (exists v, dict_get [(0, 1 # 3); (1, 2 # 3)] 1 = Ok v
                /\ (2 # 3) * (1 - 0) + 0 == v).
Proof.
  split.
  - apply (proj1 (proj1 (update_histogram_boundary_alphas
                           [(0, 1 # 3); (1, 2 # 3)] (96 # 100)
                           ltac:(reflexivity))
                        [(0, (1 # 3) * (1 - 1)); (1, (2 # 3) * (1 - 1) + 1)]
                        ltac:(vm_compute; reflexivity))).
  - apply (proj2 (update_histogram_boundary_alphas
                    [(0, 1 # 3); (1, 2 # 3)] (96 # 100) ltac:(reflexivity))
                 [(0, (1 # 3) * (1 - 0)); (1, (2 # 3) * (1 - 0) + 0)] 1).
    + vm_compute. reflexivity.
    + reflexivity.
Defined.

(** ** Restarting the histogram driver *)

Lemma last_cons {A : Type} (l : list A) (a d : A) :
  last (a :: l) d = last l a.
Proof.
  revert a d. induction l as [|b l IH]; intros a d; [reflexivity|].
  change (last (a :: b :: l) d) with (last (b :: l) d).
  rewrite (IH b d), (IH b a). reflexivity.
Qed.

Lemma later_states_app (alpha : Q) (x y : list Q) (h_t : dict) :
  later_states h_t alpha (x ++ y)
  = (r1 <- later_states h_t alpha x ;;
     r2 <- later_states (last r1 h_t) alpha y ;;
     Ok (r1 ++ r2)).
Proof.
  revert h_t. induction x as [|x_t x IH]; intros h_t.
  - cbn [app later_states bind last].
    destruct (later_states h_t alpha y); reflexivity.
  - cbn [app later_states].
    destruct (update_histogram h_t x_t alpha) as [h'|e]; cbn [bind];
      [|reflexivity].
    rewrite IH.
    destruct (later_states h' alpha x) as [r1|e]; cbn [bind]; [|reflexivity].
    rewrite (last_cons r1 h' h_t).
    destruct (later_states (last r1 h') alpha y); reflexivity.
Qed.

(** X17.  The driver can be stopped and resumed: running it on [x] and
    then, from the last state reached, on [y] gives the history of the
    run on [x ++ y] (the state the second run starts from is listed
    once). *)
Theorem histogram_loop_resumes (h_t : dict) (alpha : Q) (x y : list Q) :
  histogram_loop h_t alpha (x ++ y)
  = (l1 <- histogram_loop h_t alpha x ;;
     l2 <- histogram_loop (last l1 h_t) alpha y ;;
     Ok (l1 ++ tl l2)).
Proof.
  rewrite !histogram_loop_states, later_states_app.
  destruct (later_states h_t alpha x) as [r1|e]; cbn [bind]; [|reflexivity].
  rewrite histogram_loop_states.
  rewrite (last_cons r1 h_t h_t).
  destruct (later_states (last r1 h_t) alpha y) as [r2|e]; cbn [bind];
    reflexivity.
Qed.

(* ================================================================== *)
(** * Part IV: the cells in binary64 *)
(* ================================================================== *)

(** ** Loops that append, at any element type *)

Lemma last_is_nth_gen {A : Type} (l : list A) (d : A) :
  last l d = nth (length l - 1) l d.
Proof.
  induction l as [|a [|b l] IH]; try reflexivity.
  change (last (a :: b :: l) d) with (last (b :: l) d).
  rewrite IH. simpl. rewrite Nat.sub_0_r. reflexivity.
Qed.

Lemma binary64_getlast_nth (l : list float) (n : nat) :
  length l = Datatypes.S n -> Binary64.getlast l = Ok (nth n l 0%float).
Proof.
  intros Hl. destruct l as [|a l]; [discriminate|].
  unfold Binary64.getlast. rewrite last_is_nth_gen, Hl.
  simpl. rewrite Nat.sub_0_r. reflexivity.
Qed.

Lemma append_loop_gen {A : Type} (d : A)
      (body : list A -> nat -> result (list A)) (step : A -> nat -> A)
      (lo n : nat) (x_0 : A) :
  (forall h k p, length h = Datatypes.S k -> (lo <= p < lo + n)%nat ->
                 body h p = Ok (h ++ [step (nth k h d) p])) ->
  exists h, for_each body (seq lo n) [x_0] = Ok h
            /\ length h = Datatypes.S n
            /\ nth 0 h d = x_0
            /\ forall i, (i < n)%nat ->
                 nth (Datatypes.S i) h d = step (nth i h d) (lo + i)%nat.
Proof.
  induction n as [|n IH]; intros Hb.
  - exists [x_0]. simpl. repeat split; intros; lia.
  - destruct IH as (h & Hrun & Hlen & H0 & Hrec).
    { intros h k p Hh Hp. apply Hb; [assumption | lia]. }
    exists (h ++ [step (nth n h d) (lo + n)%nat]).
    rewrite seq_S, (for_each_snoc _ _ _ _ _ Hrun).
    split; [apply Hb; [assumption | lia]|].
    split; [rewrite length_app; simpl; lia|].
    split; [rewrite app_nth1 by lia; assumption|].
    intros i Hi. destruct (Nat.eq_dec i n) as [->|Hne].
    + rewrite app_nth2 by lia. rewrite Hlen, Nat.sub_diag. simpl.
      rewrite app_nth1 by lia. reflexivity.
    + rewrite !app_nth1 by lia. apply Hrec. lia.
Qed.

(** ** The zero-crossing count in binary64 *)

Lemma binary64_zero_cross_history_run (x_0 : float) (xs : list float) :
  exists h, Binary64.zero_cross_history (x_0 :: xs) = Ok h
            /\ length h = length (x_0 :: xs)
            /\ nth 0 h 0%float = x_0
            /\ forall p, (p < length xs)%nat ->
                 nth (Datatypes.S p) h 0%float
                 = PrimFloat.add
                     (nth p h 0%float)
                     (Binary64.float_of_int
                        (Binary64.zero_cross_counter
                           (nth (Datatypes.S p) (x_0 :: xs) 0%float)
                           (nth p (x_0 :: xs) 0%float))).
Proof.
  unfold Binary64.zero_cross_history, range.
  rewrite (getitem_nth _ 0%nat 0%float) by (simpl; lia).
  cbn [bind nth length].
  replace (Datatypes.S (length xs) - 1)%nat with (length xs) by lia.
  destruct (append_loop_gen 0%float
              (fun h t =>
                 h_t <- Binary64.getlast h ;;
                 x_t_minus_1 <- getitem (x_0 :: xs) (t - 1) ;;
                 x_t <- getitem (x_0 :: xs) t ;;
                 Ok (h ++ [PrimFloat.add h_t
                             (Binary64.float_of_int
                                (Binary64.zero_cross_counter x_t x_t_minus_1))]))
              (fun h_t t =>
                 PrimFloat.add h_t
                   (Binary64.float_of_int
                      (Binary64.zero_cross_counter
                         (nth t (x_0 :: xs) 0%float)
                         (nth (t - 1) (x_0 :: xs) 0%float))))
              1 (length xs) x_0)
    as (h & Hrun & Hlen & H0 & Hrec).
  { intros h k t Hh Ht.
    rewrite (binary64_getlast_nth _ _ Hh).
    cbn [bind]. rewrite (getitem_nth _ (t - 1)%nat 0%float) by (simpl; lia).
    cbn [bind]. rewrite (getitem_nth _ t 0%float) by (simpl; lia).
    reflexivity. }
  exists h. split; [exact Hrun|]. split; [simpl; lia|]. split; [exact H0|].
  intros p Hp. rewrite (Hrec p Hp).
  replace (1 + p - 1)%nat with p by lia. reflexivity.
Qed.

Lemma binary64_increments_succ (x : list float) (p : nat) :
  (1 <= p)%nat ->
  Binary64.increments x (Datatypes.S p)
  = Binary64.increments x p
    ++ [Binary64.float_of_int
          (Binary64.zero_cross_counter (nth p x 0%float)
                                       (nth (p - 1) x 0%float))].
Proof.
  intros Hp. unfold Binary64.increments, range.
  replace (Datatypes.S (Datatypes.S p) - 2)%nat
    with (Datatypes.S (Datatypes.S p - 2)) by lia.
  rewrite seq_S, map_app. cbn [map].
  replace (2 + (Datatypes.S p - 2) - 1)%nat with p by lia.
  replace (2 + (Datatypes.S p - 2) - 2)%nat with (p - 1)%nat by lia.
  reflexivity.
Qed.

(** C10 as stated fails in the arithmetic of the code.  On
    [[2^53, -1, 1, -1]] all three pairs straddle zero, and every addition
    of 1 to [2^53] rounds back to [2^53]: the fourth state is the first
    input, not the first input plus 3. *)
Lemma zero_cross_history_binary64_loses_count :
  exists h,
    Binary64.zero_cross_history [Binary64.two53; -1; 1; -1]%float = Ok h
    /\ (Binary64.zero_cross_counter (-1) Binary64.two53
        + Binary64.zero_cross_counter 1 (-1)
        + Binary64.zero_cross_counter (-1) 1)%Z = 3%Z
    /\ nth 3 h 0%float = Binary64.two53
    /\ ~ Binary64.Q_of_float (nth 3 h 0%float)
         == Binary64.Q_of_float Binary64.two53 + 3.
Proof.
  eexists. split; [vm_compute; reflexivity|].
  split; [vm_compute; reflexivity|].
  split; [reflexivity|].
  vm_compute. discriminate.
Qed.

(** C10 (amended).  The zero-crossing history is seeded with the first
    input itself: [h_1 = x_1], each later state is the state before it
    plus the indicator of the newest pair, and so [h_p] is [x_1] with the
    indicators of the pairs [(x_1,x_2) .. (x_{p-1},x_p)] added to it one
    after the other, every addition being the binary64 addition of the
    code.  Steps are counted from 1: step [p] is list index [p-1]. *)
Theorem zero_cross_history_binary64_seeded_with_first_input (x : list float) :
  x <> [] ->
  exists h,
    Binary64.zero_cross_history x = Ok h
    /\ length h = length x
    /\ nth 0 h 0%float = nth 0 x 0%float
    /\ (forall p, (1 <= p < length x)%nat ->
          nth p h 0%float
          = PrimFloat.add
              (nth (p - 1) h 0%float)
              (Binary64.float_of_int
                 (Binary64.zero_cross_counter (nth p x 0%float)
                                              (nth (p - 1) x 0%float))))
    /\ (forall p, (1 <= p <= length x)%nat ->
          nth (p - 1) h 0%float
          = fold_left PrimFloat.add (Binary64.increments x p)
                      (nth 0 x 0%float)).
Proof.
  intros Hx. destruct x as [|x_0 xs]; [contradiction|].
  destruct (binary64_zero_cross_history_run x_0 xs)
    as (h & Hrun & Hlen & H0 & Hrec).
  exists h. split; [exact Hrun|]. split; [exact Hlen|]. split; [exact H0|].
  cbn [length] in *.
  split.
  - intros p [Hp1 Hp2]. destruct p as [|p]; [lia|].
    replace (Datatypes.S p - 1)%nat with p by lia.
    apply Hrec. lia.
  - intros p [Hp1 Hp2]. destruct p as [|p]; [lia|].
    replace (Datatypes.S p - 1)%nat with p by lia.
    cbn [nth].
    induction p as [|p IH].
    + rewrite H0. reflexivity.
    + rewrite (binary64_increments_succ _ (Datatypes.S p)) by lia.
      rewrite fold_left_app. cbn [fold_left].
      rewrite <- IH by lia.
      replace (Datatypes.S p - 1)%nat with p by lia.
      apply Hrec. lia.
Qed.

Lemma zero_cross_history_binary64_seeded_with_first_input_witness :
  exists h,
    Binary64.zero_cross_history [5; -1; 2]%float = Ok h
    /\ length h = 3%nat
    /\ nth 0 h 0%float = 5%float
    /\ (forall p, (1 <= p < 3)%nat ->
          nth p h 0%float
          = PrimFloat.add
              (nth (p - 1) h 0%float)
              (Binary64.float_of_int
                 (Binary64.zero_cross_counter (nth p [5; -1; 2]%float 0%float)
                                              (nth (p - 1) [5; -1; 2]%float 0%float))))
    /\ (forall p, (1 <= p <= 3)%nat ->
          nth (p - 1) h 0%float
          = fold_left PrimFloat.add (Binary64.increments [5; -1; 2]%float p)
                      5%float).
Proof.
  apply (zero_cross_history_binary64_seeded_with_first_input [5; -1; 2]%float).
  discriminate.
Defined.

(** ** The histogram update in binary64 *)

















